(** * FluxLocal Storage: resumable chunked upload, quota arbitration and the
      client transfer queue

    A shallow embedding of
    - [src/contexts/FileSystemContext.tsx] (the client: chunk splitter,
      transfer queue, retry loop, cancel and clear operations, batches,
      downloads and the breadcrumbs of the folder view), and
    - the Express server of [src/unnamed/part_002] (the routes
      [POST /api/check-quota] and [POST /api/upload/complete], then the
      chunk receiver, the legacy upload, folder creation, deletion, sharing,
      download, the user list and the browsing of shared folders),
    followed by the properties established about them.

    How the program is modelled.
    - JavaScript numbers that hold byte counts, chunk counts, ordinals and
      retry counts are integers of the safe range and are modelled by [Z];
      the delay of the retry branch, a power of 1.5, is a rational ([Q]).
      A statement about a number that a request supplies says so
      ([ServerSpec.safe_integer]): beyond the safe range [String(n)] takes
      the exponent form and [parseInt] reads its leading digits only.
    - A JavaScript string is the [string] of its code units, for strings
      whose code units are all below 256.
    - A field of a JSON body is a [Js.JsValue], with JavaScript truthiness
      and [parseInt]; ids, names and the [x-user-id] header are strings that
      may be absent.
    - File contents are [list byte].  The SQLite tables are lists of rows.
      The chunk directories under [uploads/temp] and the regular files
      elsewhere on disk are finite maps; directories themselves are not
      modelled, file-system and database calls do not fail, and a path is
      joined by plain concatenation, which is what [path.join] does with a
      single segment ([ServerSpec.plain_segment]: no separator, not [.] or
      [..]); paths are those of a POSIX, case-sensitive file system.  The
      two maps are apart as long as no regular file lies under
      [uploads/temp] ([ServerSpec.temp_is_apart]).
    - The provider is a state record and each callback a function on it.  A
      callback that awaits a request is cut at the [await]: the first part
      returns the request as an [Effect], the second part takes the way the
      request settled.  Timers are effects too.  [transfersRef] mirrors the
      [transfers] state.  Random ids, [uuidv4()] and [Date.now()] are
      arguments. *)

From Stdlib Require Import ZArith QArith Qminmax Qpower Lia Ascii String.
From Stdlib Require Import Strings.Byte.
From stdpp Require Import gmap strings list pretty.

Local Open Scope Z_scope.

(* ===================================================================== *)
(** ** JavaScript values as they arrive in a JSON request body *)
(* ===================================================================== *)

Module Js.

(** A field of [req.body] after [express.json()]: absent ([undefined]),
    [null], a boolean, a number or a string.  Numbers are integers of the
    safe range (what [file.size] and [Math.ceil] produce). *)
Inductive JsValue : Type :=
| JUndefined
| JNull
| JBool (b : bool)
| JNum (n : Z)
| JStr (s : string).

(** [!!v]: JavaScript truthiness.  [0] and the empty string are falsy. *)
Definition truthy (v : JsValue) : bool :=
  match v with
  | JUndefined | JNull => false
  | JBool b => b
  | JNum n => negb (n =? 0)
  | JStr s => negb (String.eqb s "")
  end.

(** Truthiness of a value typed [string | undefined] (a header, an id). *)
Definition truthy_str (o : option string) : bool :=
  match o with
  | None => false
  | Some s => negb (String.eqb s "")
  end.

(** [StrWhiteSpaceChar] among the code units below 256: TAB, LF, VT, FF,
    CR, SP and NBSP (U+00A0).  The other white space and line terminators
    of ECMAScript (U+1680, U+2000 to U+200A, U+2028, U+2029, U+202F, U+205F,
    U+3000, U+FEFF) lie above 255. *)
Definition is_space (c : ascii) : bool :=
  let n := nat_of_ascii c in
  ((9 <=? n) && (n <=? 13))%nat || (n =? 32)%nat || (n =? 160)%nat.

(** The value of [c] as a digit of the given radix (10 or 16), if any. *)
Definition digit_of (radix : Z) (c : ascii) : option Z :=
  let n := Z.of_nat (nat_of_ascii c) in
  let d :=
    if (48 <=? n) && (n <=? 57) then Some (n - 48)
    else if (97 <=? n) && (n <=? 122) then Some (n - 87)
    else if (65 <=? n) && (n <=? 90) then Some (n - 55)
    else None in
  match d with
  | Some k => if k <? radix then Some k else None
  | None => None
  end.

Fixpoint skip_spaces (s : string) : string :=
  match s with
  | String c s' => if is_space c then skip_spaces s' else s
  | EmptyString => s
  end.

(** Longest prefix of digits, accumulated left to right; [None] when the
    prefix is empty. *)
Fixpoint digits_from (radix : Z) (acc : option Z) (s : string) : option Z :=
  match s with
  | String c s' =>
      match digit_of radix c with
      | Some d =>
          digits_from radix
            (Some (match acc with Some a => a * radix + d | None => d end)) s'
      | None => acc
      end
  | EmptyString => acc
  end.

(** [parseInt(s)] without a radix argument: leading white space, an
    optional sign, an optional [0x]/[0X] prefix, then the digits.  [None]
    is [NaN]. *)
Definition parseInt_str (s : string) : option Z :=
  let s1 := skip_spaces s in
  let '(sign, s2) :=
    match s1 with
    | String "-"%char r => (-1, r)
    | String "+"%char r => (1, r)
    | _ => (1, s1)
    end in
  let '(radix, s3) :=
    match s2 with
    | String "0"%char (String "x"%char r) => (16, r)
    | String "0"%char (String "X"%char r) => (16, r)
    | _ => (10, s2)
    end in
  match digits_from radix None s3 with
  | Some n => Some (sign * n)
  | None => None
  end.

(** [parseInt(v)]: the argument is first converted with [String(v)]; a
    safe integer prints as its decimal numeral and parses back to itself,
    while ["undefined"], ["null"], ["true"] and ["false"] have no digits.
    [JNum n] stands for a safe integer [n]: from 10^21 on [String(n)] is in
    exponent form (["1e+21"]) and [parseInt] reads 1 from it. *)
Definition parseInt (v : JsValue) : option Z :=
  match v with
  | JNum n => Some n
  | JStr s => parseInt_str s
  | JUndefined | JNull | JBool _ => None
  end.

(** [x || 0] for a number [x]: [NaN] and [0] are both falsy. *)
Definition or_zero (o : option Z) : Z :=
  match o with
  | Some n => n
  | None => 0
  end.

End Js.

(* ===================================================================== *)
(** ** The chunk splitter of the client *)
(* ===================================================================== *)

Module Splitter.

(** [const CHUNK_SIZE = 10 * 1024 * 1024] *)
Definition CHUNK_SIZE : Z := 10 * 1024 * 1024.

(** [file.size] *)
Definition file_size (data : list byte) : Z := Z.of_nat (length data).

(** [Math.ceil(a / b)] for a positive divisor. *)
Definition ceil_div (a b : Z) : Z := - ((- a) / b).

(** [const totalChunks = Math.ceil(file.size / CHUNK_SIZE)], with the chunk
    size as a parameter. *)
Definition totalChunks (cs : Z) (data : list byte) : Z :=
  ceil_div (file_size data) cs.

(** [file.slice(start, end)] for non-negative offsets: the bytes from
    [start] up to, not including, [end], clipped to the file. *)
Definition slice (data : list byte) (start end_ : Z) : list byte :=
  take (Z.to_nat (end_ - start)) (drop (Z.to_nat start) data).

(** The body of one chunk, as [processUploadChunk] cuts it:
    [start = chunkIndex * CHUNK_SIZE],
    [end = Math.min(start + CHUNK_SIZE, file.size)]. *)
Definition chunk_at (cs : Z) (data : list byte) (chunkIndex : Z) : list byte :=
  let start := chunkIndex * cs in
  let end_ := Z.min (start + cs) (file_size data) in
  slice data start end_.

(** The chunks sent when every upload succeeds: [processUploadChunk]
    continues with [chunkIndex + 1] until [chunkIndex >= totalChunks]. *)
Fixpoint chunks_from (cs : Z) (data : list byte) (chunkIndex : Z) (n : nat)
  : list (list byte) :=
  match n with
  | O => []
  | S k => chunk_at cs data chunkIndex :: chunks_from cs data (chunkIndex + 1) k
  end.

Definition split (cs : Z) (data : list byte) : list (list byte) :=
  chunks_from cs data 0 (Z.to_nat (totalChunks cs data)).

End Splitter.

(* ===================================================================== *)
(** ** The server: quota oracle and assembler *)
(* ===================================================================== *)

Module Server.
Import Js.

(** The columns of table [users] the two routes read. *)
Record UserRow : Type := mkUser {
  u_id : string;
  u_storage_limit : Z
}.

(** A row of table [files]. *)
Record FileRow : Type := mkFile {
  f_id : string;
  f_user_id : string;
  f_parent_id : option string;
  f_name : string;
  f_type : string;
  f_size : Z;
  f_path : option string;
  f_mime_type : option string;
  f_created_at : Z
}.

(** What the routes read and write: the two tables, the chunk directories
    [uploads/temp/<uploadId>/] (file name to contents) and the regular files
    elsewhere on disk (path to contents). *)
Record State : Type := mkState {
  users : list UserRow;
  files : list FileRow;
  temp : gmap string (gmap string (list byte));
  disk : gmap string (list byte)
}.

(** [uuidv4()] and [Date.now()], drawn once per request. *)
Record Env : Type := mkEnv {
  fresh_id : string;
  now : Z
}.

(** [db.get('SELECT storage_limit FROM users WHERE id = ?', userId)] *)
Definition find_user (us : list UserRow) (userId : string) : option UserRow :=
  List.find (fun u => String.eqb (u_id u) userId) us.

(** [SELECT COALESCE(SUM(size), 0) as total FROM files
     WHERE user_id = ? AND type = "file"], the query of both routes. *)
Definition current_usage (fs : list FileRow) (userId : string) : Z :=
  fold_right Z.add 0
    (map f_size
       (List.filter
          (fun f => String.eqb (f_user_id f) userId && String.eqb (f_type f) "file")
          fs)).

(** [path.join(a, b)] for a second argument that is a single segment: the
    two joined by the separator.  With [.], [..] or a separator in [b] the
    function normalises the result, which then names another place. *)
Definition path_join (a b : string) : string := a +:+ "/" +:+ b.

(** [path.join(process.cwd(), 'uploads', userId)], relative to the working
    directory. *)
Definition root_path (userId : string) : string := path_join "uploads" userId.

(** [db.get('SELECT path, name, parent_id FROM files WHERE id = ?', folderId)] *)
Definition find_file (fs : list FileRow) (id : string) : option FileRow :=
  List.find (fun f => String.eqb (f_id f) id) fs.

(** [getPhysicalPath]: the recursion follows [parent_id] and has no bound in
    the source; [None] is a chain longer than the fuel. *)
Fixpoint getPhysicalPath (fuel : nat) (fs : list FileRow) (userId : string)
         (folderId : option string) : option string :=
  match fuel with
  | O => None
  | S fuel' =>
      match folderId with
      | None => Some (root_path userId)
      | Some fid =>
          if String.eqb fid "" || String.eqb fid "root" then Some (root_path userId)
          else
            match find_file fs fid with
            | None => Some (root_path userId)
            | Some folder =>
                if truthy_str (f_path folder) then f_path folder
                else
                  match getPhysicalPath fuel' fs userId (f_parent_id folder) with
                  | Some parentPath => Some (path_join parentPath (f_name folder))
                  | None => None
                  end
            end
      end
  end.

(** The name of a stored chunk: [`part_${i}`]. *)
Definition part_name (i : Z) : string := "part_" +:+ pretty i.

Inductive Response : Type :=
| BadRequest          (* 400 { error: 'Missing required fields' } *)
| NotFound            (* 404 { error: 'User not found' } *)
| QuotaExceeded (usedSpace totalSpace availableSpace fileSize : Z)      (* 413 *)
| MergeFailed         (* 500 { error: 'Failed to merge file' } *)
| Created (entry : FileRow)       (* 200, the fields of the inserted entry *)
| QuotaReport (canUpload : bool)
              (usedSpace totalSpace availableSpace requestedSize : Z).  (* 200 *)

Definition status_code (r : Response) : Z :=
  match r with
  | BadRequest => 400
  | NotFound => 404
  | QuotaExceeded _ _ _ _ => 413
  | MergeFailed => 500
  | Created _ | QuotaReport _ _ _ _ _ => 200
  end.

(** *** [POST /api/check-quota] *)

Record QuotaReq : Type := mkQuotaReq {
  q_user : option string;          (* header x-user-id *)
  q_fileSize : JsValue
}.

Definition check_quota (st : State) (req : QuotaReq) : Response :=
  if negb (truthy_str (q_user req)) || negb (truthy (q_fileSize req)) then BadRequest
  else
    let userId := default "" (q_user req) in
    match find_user (users st) userId with
    | None => NotFound
    | Some user =>
        let usedSpace := current_usage (files st) userId in
        let requestedSize := or_zero (parseInt (q_fileSize req)) in
        let availableSpace := u_storage_limit user - usedSpace in
        let canUpload := requestedSize <=? availableSpace in
        QuotaReport canUpload usedSpace (u_storage_limit user) availableSpace requestedSize
    end.

(** *** [POST /api/upload/complete] *)

Record CompleteReq : Type := mkCompleteReq {
  c_user : option string;          (* header x-user-id *)
  c_uploadId : option string;
  c_fileName : option string;
  c_parentId : option string;
  c_totalChunks : JsValue;
  c_mimeType : option string;
  c_size : JsValue
}.

(** The outcome of the first [try] block of the route: either the response
    that ends the request, with the state it leaves, or leave to go on to
    the merge. *)
Inductive Gate : Type :=
| Rejected (r : Response) (st' : State)
| Passed.

(** [fs.rmSync(tempDir, { recursive: true, force: true })] for an upload
    id that is a single segment, where [tempDir] is the chunk directory of
    the session; nothing else lies at that path while no regular file is
    under [uploads/temp]. *)
Definition rm_temp (uploadId : string) (st : State) : State :=
  mkState (users st) (files st) (delete uploadId (temp st)) (disk st).

Definition quota_gate (st : State) (userId uploadId : string) (size : JsValue) : Gate :=
  match find_user (users st) userId with
  | None => Rejected NotFound st
  | Some user =>
      let usedSpace := current_usage (files st) userId in
      let fileSize := or_zero (parseInt size) in
      let availableSpace := u_storage_limit user - usedSpace in
      if availableSpace <? fileSize then
        Rejected
          (QuotaExceeded usedSpace (u_storage_limit user) availableSpace fileSize)
          (rm_temp uploadId st)
      else Passed
  end.

(** The merge loop, from ordinal [i] for [n] more rounds.  [dir] is the
    chunk directory and [out] what has been piped into the write stream.
    A chunk that exists is appended and unlinked; at the first one that
    does not, the stream is closed and [Missing chunk i] is thrown. *)
Fixpoint merge_chunks (dir : gmap string (list byte)) (out : list byte)
         (i : Z) (n : nat) : gmap string (list byte) * list byte * option Z :=
  match n with
  | O => (dir, out, None)
  | S k =>
      match dir !! part_name i with
      | Some bytes => merge_chunks (delete (part_name i) dir) (out ++ bytes) (i + 1) k
      | None => (dir, out, Some i)
      end
  end.

(** The number of rounds of [for (let i = 0; i < parseInt(totalChunks); i++)];
    no round when the bound is [NaN]. *)
Definition rounds (totalChunks : JsValue) : nat :=
  match parseInt totalChunks with
  | Some t => Z.to_nat t
  | None => O
  end.

(** The second [try] block.  The write stream opens the destination
    (created or truncated) when the handler first awaits, which is at the
    first chunk.  With at least one round the chunks are merged into it,
    and on success the chunk directory is removed and the entry inserted
    with the size found on disk.  With no round ([totalChunks] is truthy
    but [parseInt] reads no positive number from it) nothing is awaited
    before [fs.statSync]: the chunk directory is removed and the path is
    looked at as it was before the request: absent, [statSync] throws and
    the answer is 500; present, the entry gets the size of the old file.
    The stream then opens and leaves an empty file.  [None] stands for a
    [getPhysicalPath] that does not return. *)
Definition merge (fuel : nat) (env : Env) (st : State) (userId uploadId fileName : string)
           (req : CompleteReq) : option (Response * State) :=
  match getPhysicalPath fuel (files st) userId (c_parentId req) with
  | None => None
  | Some targetDir =>
      let targetPath := path_join targetDir fileName in
      let parent := match c_parentId req with
                    | Some p => if String.eqb p "root" then None else Some p
                    | None => None
                    end in
      let mime := match c_mimeType req with
                  | Some m => if String.eqb m "" then "application/octet-stream" else m
                  | None => "application/octet-stream"
                  end in
      let entry size := mkFile (fresh_id env) userId parent fileName "file" size
                               (Some targetPath) (Some mime) (now env) in
      match rounds (c_totalChunks req) with
      | O =>
          let disk' := <[targetPath := []]> (disk st) in
          match disk st !! targetPath with
          | None =>
              Some (MergeFailed,
                    mkState (users st) (files st) (delete uploadId (temp st)) disk')
          | Some old =>
              Some (Created (entry (Z.of_nat (length old))),
                    mkState (users st) (files st ++ [entry (Z.of_nat (length old))])
                            (delete uploadId (temp st)) disk')
          end
      | S _ =>
          let dir := default ∅ (temp st !! uploadId) in
          let '(dir', out, missing) :=
            merge_chunks dir [] 0 (rounds (c_totalChunks req)) in
          let disk' := <[targetPath := out]> (disk st) in
          match missing with
          | Some _ =>
              let temp' := match temp st !! uploadId with
                           | Some _ => <[uploadId := dir']> (temp st)
                           | None => temp st
                           end in
              Some (MergeFailed, mkState (users st) (files st) temp' disk')
          | None =>
              Some (Created (entry (Z.of_nat (length out))),
                    mkState (users st) (files st ++ [entry (Z.of_nat (length out))])
                            (delete uploadId (temp st)) disk')
          end
      end
  end.

Definition upload_complete (fuel : nat) (env : Env) (st : State) (req : CompleteReq)
  : option (Response * State) :=
  if negb (truthy_str (c_user req)) || negb (truthy_str (c_uploadId req))
     || negb (truthy_str (c_fileName req)) || negb (truthy (c_totalChunks req))
  then Some (BadRequest, st)
  else
    let userId := default "" (c_user req) in
    let uploadId := default "" (c_uploadId req) in
    let fileName := default "" (c_fileName req) in
    match quota_gate st userId uploadId (c_size req) with
    | Rejected r st' => Some (r, st')
    | Passed => merge fuel env st userId uploadId fileName req
    end.

End Server.

(* ===================================================================== *)
(** ** The client: the transfer queue of [FileSystemProvider] *)
(* ===================================================================== *)

Module Client.
Import Js Splitter.

Inductive TransferStatus : Type :=
| pending | processing | merging | paused | completed | error.

Inductive TransferType : Type := upload | download.

Definition status_eqb (a b : TransferStatus) : bool :=
  match a, b with
  | pending, pending | processing, processing | merging, merging
  | paused, paused | completed, completed | error, error => true
  | _, _ => false
  end.

Definition type_eqb (a b : TransferType) : bool :=
  match a, b with
  | upload, upload | download, download => true
  | _, _ => false
  end.

(** A browser [File]: its name, its MIME type and its bytes. *)
Record File : Type := mkBrowserFile {
  file_name : string;
  file_type : string;
  file_data : list byte
}.

(** [TransferItem]; an [AbortController] is known by its number. *)
Record TransferItem : Type := mkTransfer {
  t_id : string;
  t_name : string;
  t_type : TransferType;
  t_progress : Z;
  t_status : TransferStatus;
  t_size : Z;
  t_loaded : Z;
  t_file : option File;
  t_uploadId : option string;
  t_chunkIndex : option Z;
  t_totalChunks : option Z;
  t_abortController : option nat;
  t_parentId : option string;
  t_startTime : option Z;
  t_speed : option Z
}.

(** [Partial<TransferItem>], with the fields the provider ever updates. *)
Record Updates : Type := mkUpdates {
  upd_status : option TransferStatus;
  upd_progress : option Z;
  upd_loaded : option Z;
  upd_size : option Z;
  upd_chunkIndex : option Z;
  upd_startTime : option Z;
  upd_speed : option Z
}.

Definition no_updates : Updates := mkUpdates None None None None None None None.

(** [{ ...t, ...updates }] *)
Definition merge_updates (t : TransferItem) (u : Updates) : TransferItem :=
  mkTransfer (t_id t) (t_name t) (t_type t)
             (default (t_progress t) (upd_progress u))
             (default (t_status t) (upd_status u))
             (default (t_size t) (upd_size u))
             (default (t_loaded t) (upd_loaded u))
             (t_file t) (t_uploadId t)
             (from_option Some (t_chunkIndex t) (upd_chunkIndex u))
             (t_totalChunks t) (t_abortController t) (t_parentId t)
             (from_option Some (t_startTime t) (upd_startTime u))
             (from_option Some (t_speed t) (upd_speed u)).

(** A [fetch] that has been issued and has not settled; [call_signal] is
    the controller whose signal was passed to it, if any. *)
Record NetCall : Type := mkCall {
  call_transfer : string;
  call_signal : option nat
}.

(** The state of the provider: the signed-in user, the open folder, the
    [transfers] state, the two refs, the calls in flight, the controllers
    aborted so far and the number of controllers created.  [transfersRef]
    is not kept apart: it mirrors [transfers]. *)
Record ClientState : Type := mkClient {
  user : option string;
  currentFolderId : option string;
  transfers : list TransferItem;
  mergingRefs : gset string;
  transferStatusRef : gmap string TransferStatus;
  calls : list NetCall;
  aborted : gset nat;
  controllers : nat
}.

Definition initial (u : option string) : ClientState :=
  mkClient u None [] ∅ ∅ [] ∅ 0.

Definition set_transfers (st : ClientState) (ts : list TransferItem) : ClientState :=
  mkClient (user st) (currentFolderId st) ts (mergingRefs st) (transferStatusRef st)
           (calls st) (aborted st) (controllers st).

Definition set_mergingRefs (st : ClientState) (m : gset string) : ClientState :=
  mkClient (user st) (currentFolderId st) (transfers st) m (transferStatusRef st)
           (calls st) (aborted st) (controllers st).

Definition set_statusRef (st : ClientState) (m : gmap string TransferStatus) : ClientState :=
  mkClient (user st) (currentFolderId st) (transfers st) (mergingRefs st) m
           (calls st) (aborted st) (controllers st).

Definition set_calls (st : ClientState) (cs : list NetCall) : ClientState :=
  mkClient (user st) (currentFolderId st) (transfers st) (mergingRefs st)
           (transferStatusRef st) cs (aborted st) (controllers st).

(** [controller.abort()] *)
Definition abort (st : ClientState) (c : nat) : ClientState :=
  mkClient (user st) (currentFolderId st) (transfers st) (mergingRefs st)
           (transferStatusRef st) (calls st) ({[ c ]} ∪ aborted st) (controllers st).

(** [new AbortController()] *)
Definition new_controller (st : ClientState) : nat * ClientState :=
  (controllers st,
   mkClient (user st) (currentFolderId st) (transfers st) (mergingRefs st)
            (transferStatusRef st) (calls st) (aborted st) (S (controllers st))).

(** A call is cut short when the controller of its signal was aborted. *)
Definition call_aborted (st : ClientState) (c : NetCall) : bool :=
  match call_signal c with
  | Some k => bool_decide (k ∈ aborted st)
  | None => false
  end.

(** [transfers.find(t => t.id === id)] *)
Definition find_transfer (ts : list TransferItem) (id : string) : option TransferItem :=
  List.find (fun t => String.eqb (t_id t) id) ts.

(** [updateTransfer]: the status goes to [transferStatusRef] at once, and
    every transfer with that id takes the updates. *)
Definition updateTransfer (st : ClientState) (id : string) (u : Updates) : ClientState :=
  let st1 := match upd_status u with
             | Some s => set_statusRef st (<[id := s]> (transferStatusRef st))
             | None => st
             end in
  set_transfers st1
    (map (fun t => if String.eqb (t_id t) id then merge_updates t u else t) (transfers st1)).

(** [const MAX_CONCURRENT_UPLOADS = 5] *)
Definition MAX_CONCURRENT_UPLOADS : Z := 5.

(** What a handler leaves behind for the event loop. *)
Record ChunkForm : Type := mkChunkForm {
  form_chunk : list byte;
  form_uploadId : option string;
  form_chunkIndex : string;
  form_totalChunks : string;
  form_fileName : string;
  form_parentId : string
}.

Record CompleteBody : Type := mkCompleteBody {
  body_uploadId : option string;
  body_fileName : string;
  body_parentId : string;
  body_totalChunks : Z;
  body_mimeType : string;
  body_size : Z
}.

Inductive Effect : Type :=
| Idle
    (* nothing is scheduled *)
| Later (delay : Q) (transferId : string) (chunkIndex retryCount : Z)
    (* setTimeout(() => processUploadChunk(transferId, chunkIndex, retryCount), delay) *)
| PostChunk (controller : nat) (form : ChunkForm)
    (* fetch('/api/upload/chunk', { body: formData, signal }) *)
| PostComplete (body : CompleteBody).
    (* fetch('/api/upload/complete', { body: JSON.stringify(...) }) *)

Definition is_active (t : TransferItem) : bool :=
  status_eqb (t_status t) processing || status_eqb (t_status t) merging.

(** [transfers.filter(t => t.status === 'processing' || t.status === 'merging').length] *)
Definition activeCount (ts : list TransferItem) : Z :=
  Z.of_nat (length (List.filter is_active ts)).

(** The queue management effect, run once on the current [transfers]. *)
Definition queue_effect (now : Z) (st : ClientState) : ClientState * Effect :=
  if activeCount (transfers st) <? MAX_CONCURRENT_UPLOADS then
    match List.find (fun t => status_eqb (t_status t) pending) (transfers st) with
    | Some nextTransfer =>
        (updateTransfer st (t_id nextTransfer)
           (mkUpdates (Some processing) None None None None (Some now) None),
         Later 100%Q (t_id nextTransfer) 0 0)
    | None => (st, Idle)
    end
  else (st, Idle).

(** [a || b || 'root'] on ids. *)
Definition parent_or_root (a b : option string) : string :=
  if truthy_str a then default "" a
  else if truthy_str b then default "" b
  else "root".

(** [Math.round(a / b)] for [a >= 0] and [b > 0], in exact arithmetic:
    the quotient rounded to the nearest integer, a half going up.  The code
    rounds a double, which next to an exact half can fall on the other
    side. *)
Definition round_div (a b : Z) : Z := (2 * a + b) / (2 * b).

(** [Math.min(1000 * Math.pow(1.5, retryCount), 30000)], in milliseconds. *)
Definition retry_delay (retryCount : Z) : Q :=
  Qmin (1000 * Qpower (3 # 2) retryCount)%Q 30000%Q.

(** [processUploadChunk], up to its first [await]. *)
Definition processUploadChunk (st : ClientState) (transferId : string)
           (chunkIndex retryCount : Z) : ClientState * Effect :=
  match find_transfer (transfers st) transferId with
  | None =>
      if retryCount <? 5 then (st, Later 100%Q transferId chunkIndex (retryCount + 1))
      else (st, Idle)
  | Some transfer =>
      match t_file transfer, user st with
      | Some file, Some userId =>
          if negb (status_eqb (t_status transfer) processing) then (st, Idle)
          else
            let totalChunks := default 0 (t_totalChunks transfer) in
            if totalChunks <=? chunkIndex then
              (* Complete *)
              match transferStatusRef st !! transferId with
              | Some merging | Some completed => (st, Idle)
              | _ =>
                  if bool_decide (transferId ∈ mergingRefs st) then (st, Idle)
                  else
                    let st1 := set_mergingRefs st ({[ transferId ]} ∪ mergingRefs st) in
                    let st2 := updateTransfer st1 transferId
                                 (mkUpdates (Some merging) (Some 100) None None None None None) in
                    (set_calls st2 (calls st2 ++ [mkCall transferId None]),
                     PostComplete
                       (mkCompleteBody (t_uploadId transfer) (file_name file)
                          (parent_or_root (t_parentId transfer) (currentFolderId st))
                          totalChunks (file_type file) (file_size (file_data file))))
              end
            else
              let chunk := chunk_at CHUNK_SIZE (file_data file) chunkIndex in
              let form := mkChunkForm chunk (t_uploadId transfer) (pretty chunkIndex)
                            (pretty totalChunks) (file_name file)
                            (parent_or_root (t_parentId transfer) (currentFolderId st)) in
              let '(controller, st1) := new_controller st in
              (set_calls st1 (calls st1 ++ [mkCall transferId (Some controller)]),
               PostChunk controller form)
      | _, _ => (st, Idle)
      end
  end.

(** How a chunk request settled: [response.ok], or anything else (a
    network error, the abort of the time-out, a status that is not 2xx). *)
Inductive ChunkOutcome : Type := ChunkOk | ChunkFailed.

Definition remove_call (st : ClientState) (c : NetCall) : ClientState :=
  set_calls st
    (List.filter
       (fun k => negb (String.eqb (call_transfer k) (call_transfer c)
                       && bool_decide (call_signal k = call_signal c)))
       (calls st)).

(** [processUploadChunk] after the chunk request settled; [transfer] is the
    one read before the request, [now] is [Date.now()]. *)
Definition chunk_settled (st : ClientState) (transfer : TransferItem) (controller : nat)
           (chunkIndex retryCount : Z) (outcome : ChunkOutcome) (now : Z)
  : ClientState * Effect :=
  let transferId := t_id transfer in
  let st0 := remove_call st (mkCall transferId (Some controller)) in
  match outcome with
  | ChunkOk =>
      let fsize := match t_file transfer with
                   | Some f => file_size (file_data f)
                   | None => 0
                   end in
      let nextIndex := chunkIndex + 1 in
      let loaded := Z.min (nextIndex * CHUNK_SIZE) fsize in
      let progress := round_div (loaded * 100) fsize in
      let start := match t_startTime transfer with
                   | Some s => if s =? 0 then now else s
                   | None => now
                   end in
      let elapsed := now - start in
      let speed := if 0 <? elapsed then round_div (loaded * 1000) elapsed else 0 in
      (updateTransfer st0 transferId
         (mkUpdates None (Some progress) (Some loaded) None (Some nextIndex) None (Some speed)),
       Later 0%Q transferId nextIndex 0)
  | ChunkFailed =>
      if retryCount <? 10 then
        (st0, Later (retry_delay retryCount) transferId chunkIndex (retryCount + 1))
      else
        (updateTransfer st0 transferId
           (mkUpdates (Some error) None None None None None None),
         Idle)
  end.

(** How the completion request settled: [response.ok], status 413, any
    other status, or a rejected [fetch]. *)
Inductive CompleteOutcome : Type :=
| CompleteOk
| CompleteQuota
| CompleteStatus (code : Z)
| CompleteThrew.

(** [processUploadChunk] after the completion request settled. *)
Definition complete_settled (st : ClientState) (transfer : TransferItem)
           (outcome : CompleteOutcome) : ClientState :=
  let transferId := t_id transfer in
  let st0 := remove_call st (mkCall transferId None) in
  let fsize := match t_file transfer with
               | Some f => file_size (file_data f)
               | None => 0
               end in
  let st1 :=
    match outcome with
    | CompleteOk =>
        updateTransfer st0 transferId
          (mkUpdates (Some completed) (Some 100) (Some fsize) None None None None)
    | CompleteQuota | CompleteStatus _ | CompleteThrew =>
        updateTransfer st0 transferId
          (mkUpdates (Some error) None None None None None None)
    end in
  (* finally *)
  set_mergingRefs st1 (mergingRefs st1 ∖ {[ transferId ]}).

(** [checkQuota]: the answer of [POST /api/check-quota] as the client reads
    it; [None] is a [fetch] that threw.  Only a 200 answer with
    [canUpload: true] lets the upload start. *)
Definition checkQuota (answer : option Server.Response) : bool :=
  match answer with
  | Some (Server.QuotaReport canUpload _ _ _ _) => canUpload
  | _ => false
  end.

(** The transfer built by [uploadFile] and [uploadFiles] for one file. *)
Definition new_upload (transferId uploadId : string) (file : File)
           (status : TransferStatus) (parentId : string) : TransferItem :=
  mkTransfer transferId (file_name file) upload 0 status
             (file_size (file_data file)) 0 (Some file) (Some uploadId) (Some 0)
             (Some (totalChunks CHUNK_SIZE (file_data file)))
             None (Some parentId) None None.

(** [uploadFile]; [answer] is what the quota route said for [file.size],
    the two ids are the random strings drawn. *)
Definition uploadFile (st : ClientState) (answer : option Server.Response)
           (transferId uploadId : string) (file : File) (parentFolderId : option string)
  : ClientState * Effect :=
  match user st with
  | None => (st, Idle)
  | Some _ =>
      if negb (checkQuota answer) then (st, Idle)
      else
        let newTransfer :=
          new_upload transferId uploadId file processing
                     (parent_or_root parentFolderId (currentFolderId st)) in
        let st1 := set_statusRef st (<[transferId := processing]> (transferStatusRef st)) in
        (set_transfers st1 (transfers st1 ++ [newTransfer]),
         Later 100%Q transferId 0 0)
  end.

(** [uploadFiles]; [answer] is what the quota route said for the total
    size, [ids] the random (transfer id, upload id) pairs, one per item. *)
Definition uploadFiles (st : ClientState) (answer : option Server.Response)
           (ids : list (string * string)) (items : list (File * option string))
  : ClientState :=
  match user st, items with
  | None, _ | _, [] => st
  | Some _, _ =>
      if negb (checkQuota answer) then st
      else
        let newTransfers :=
          zip_with
            (fun '(transferId, uploadId) '(file, parentId) =>
               new_upload transferId uploadId file pending
                          (parent_or_root parentId (currentFolderId st)))
            ids items in
        let ref' := fold_left (fun m t => <[t_id t := pending]> m) newTransfers
                              (transferStatusRef st) in
        set_transfers (set_statusRef st ref') (transfers st ++ newTransfers)
  end.

(** The size [uploadFiles] asks the quota route about:
    [items.reduce((sum, item) => sum + item.file.size, 0)]. *)
Definition totalSize (items : list (File * option string)) : Z :=
  fold_left (fun sum item => sum + file_size (file_data (fst item))) items 0.

(** [downloadFile], up to its [fetch]. *)
Definition downloadFile (st : ClientState) (transferId fileName : string) (isFolder : bool)
  : ClientState :=
  match user st with
  | None => st
  | Some _ =>
      let '(abortController, st1) := new_controller st in
      let item :=
        mkTransfer transferId (if isFolder then fileName +:+ ".zip" else fileName)
                   download 0 processing 0 0 None None None None
                   (Some abortController) None None None in
      let st2 := set_transfers st1 (transfers st1 ++ [item]) in
      set_calls st2 (calls st2 ++ [mkCall transferId (Some abortController)])
  end.

(** [cancelTransfer] *)
Definition cancelTransfer (st : ClientState) (id : string) : ClientState :=
  let st1 :=
    match find_transfer (transfers st) id with
    | Some transfer =>
        match t_abortController transfer with
        | Some c => abort st c
        | None => st
        end
    | None => st
    end in
  set_transfers st1
    (List.filter (fun t => negb (String.eqb (t_id t) id)) (transfers st1)).

(** [clearCompletedTransfers] *)
Definition clearCompletedTransfers (st : ClientState) (type : option TransferType)
  : ClientState :=
  set_transfers st
    (List.filter
       (fun t =>
          if negb (status_eqb (t_status t) completed) then true
          else match type with
               | Some ty => if negb (type_eqb (t_type t) ty) then true else false
               | None => false
               end)
       (transfers st)).

(** The effect that mirrors [transfers] into [transferStatusRef]: an id the
    ref does not know yet gets the status of its transfer. *)
Definition sync_status_ref (st : ClientState) : ClientState :=
  set_statusRef st
    (fold_left
       (fun m t => match m !! t_id t with
                   | Some _ => m
                   | None => <[t_id t := t_status t]> m
                   end)
       (transfers st) (transferStatusRef st)).

(** The completion request on the wire, and the way its answer is read:
    [response.ok] is a status of 200 to 299. *)
Definition to_request (userId : string) (b : CompleteBody) : Server.CompleteReq :=
  Server.mkCompleteReq (Some userId) (body_uploadId b) (Some (body_fileName b))
                       (Some (body_parentId b)) (JNum (body_totalChunks b))
                       (Some (body_mimeType b)) (JNum (body_size b)).

Definition outcome_of (r : Server.Response) : CompleteOutcome :=
  let code := Server.status_code r in
  if (200 <=? code) && (code <=? 299) then CompleteOk
  else if code =? 413 then CompleteQuota
  else CompleteStatus code.

(** The event loop around a chunk whose request fails every time: the
    handler runs, the request fails, the timer of the retry branch fires
    and the handler runs again.  The result is the final state, the
    requests made (ordinal, retry count, delay before the next one) and
    whether the loop came to rest within the fuel. *)
Fixpoint failing_chunk_loop (fuel : nat) (now : Z) (st : ClientState)
         (transferId : string) (chunkIndex retryCount : Z)
  : ClientState * list (Z * Z * option Q) * bool :=
  match fuel with
  | O => (st, [], false)
  | S fuel' =>
      match processUploadChunk st transferId chunkIndex retryCount with
      | (st1, PostChunk controller _) =>
          match find_transfer (transfers st) transferId with
          | Some transfer =>
              match chunk_settled st1 transfer controller chunkIndex retryCount
                                  ChunkFailed now with
              | (st2, Later d tid ci rc) =>
                  let '(st3, tr, fin) := failing_chunk_loop fuel' now st2 tid ci rc in
                  (st3, (chunkIndex, retryCount, Some d) :: tr, fin)
              | (st2, _) => (st2, [(chunkIndex, retryCount, None)], true)
              end
          | None => (st1, [], true)
          end
      | (st1, _) => (st1, [], true)
      end
  end.

(** The event loop around a transfer whose chunk requests all succeed: the
    handler runs, the request succeeds, the timer of the continuation fires
    and the handler runs for the next ordinal.  The result is the final
    state, the forms posted, in order, and the completion body once the
    handler has posted it. *)
Fixpoint succeeding_loop (fuel : nat) (now : Z) (st : ClientState)
         (transferId : string) (chunkIndex : Z)
  : ClientState * list ChunkForm * option CompleteBody :=
  match fuel with
  | O => (st, [], None)
  | S fuel' =>
      match processUploadChunk st transferId chunkIndex 0 with
      | (st1, PostChunk controller form) =>
          match find_transfer (transfers st) transferId with
          | Some transfer =>
              match chunk_settled st1 transfer controller chunkIndex 0 ChunkOk now with
              | (st2, Later _ tid ci _) =>
                  let '(st3, forms, body) := succeeding_loop fuel' now st2 tid ci in
                  (st3, form :: forms, body)
              | (st2, _) => (st2, [form], None)
              end
          | None => (st1, [], None)
          end
      | (st1, PostComplete body) => (st1, [], Some body)
      | (st1, _) => (st1, [], None)
      end
  end.

End Client.

(* ===================================================================== *)
(** ** Predicates and concrete states used in the statements *)
(* ===================================================================== *)

Module ServerSpec.
Import Js Server.

(** The request passes the required-field check of
    [POST /api/upload/complete] with these ids. *)
Definition required_fields (req : CompleteReq) (userId uploadId fileName : string) : Prop :=
  c_user req = Some userId /\ userId <> ""
  /\ c_uploadId req = Some uploadId /\ uploadId <> ""
  /\ c_fileName req = Some fileName /\ fileName <> ""
  /\ truthy (c_totalChunks req) = true.

(** The pre-flight route accepts a requested byte count: it answers with
    [canUpload: true]. *)
Definition preflight_allows (st : State) (userId : string) (n : Z) : bool :=
  match check_quota st (mkQuotaReq (Some userId) (JNum n)) with
  | QuotaReport canUpload _ _ _ _ => canUpload
  | _ => false
  end.

(** The commit-time check accepts a declared size: the request goes on to
    the merge. *)
Definition commit_allows (st : State) (userId uploadId : string) (n : Z) : bool :=
  match quota_gate st userId uploadId (JNum n) with
  | Passed => true
  | Rejected _ _ => false
  end.

(** The [size] field is absent or holds a value [parseInt] reads no number
    from ([null], a boolean, a string that does not start with one). *)
Definition no_declared_size (v : JsValue) : Prop :=
  v = JUndefined \/ parseInt v = None.

(** [Number.isSafeInteger(n)]: such a number prints as its decimal numeral,
    so [parseInt] reads it back exactly. *)
Definition safe_integer (n : Z) : Prop :=
  - (2 ^ 53 - 1) <= n <= 2 ^ 53 - 1.




(** The answer the quota block of the commit route sends, if it sends
    one. *)
Definition gate_response (g : Gate) : option Response :=
  match g with
  | Rejected r _ => Some r
  | Passed => None
  end.

(** The bytes of the chunks [i0 .. i0 + k - 1] of a directory, in order. *)
Fixpoint stored_prefix (dir : gmap string (list byte)) (i0 : Z) (k : nat) : list byte :=
  match k with
  | O => []
  | S k' => default [] (dir !! part_name i0) ++ stored_prefix dir (i0 + 1) k'
  end.

(** An owner with a limit of 100 bytes and nothing stored. *)
Definition fresh_owner_state : State := mkState [mkUser "u" 100] [] ∅ ∅.



(** The quota scenario of the specification: limit 1,000,000, consumption
    900,000 (a folder entry next to the file does not count), and a
    completion signal declaring 200,000 bytes. *)
Definition nearly_full_state : State :=
  mkState [mkUser "u" 1000000]
          [mkFile "f1" "u" None "old.bin" "file" 900000 (Some "uploads/u/old.bin") None 1;
           mkFile "d1" "u" None "docs" "folder" 0 (Some "uploads/u/docs") None 1]
          {[ "s" := {[ part_name 0 := [x01; x02] ]} ]}
          ∅.

Definition big_file_req : CompleteReq :=
  mkCompleteReq (Some "u") (Some "s") (Some "a.bin") (Some "root")
                (JNum 1) (Some "text/plain") (JNum 200000).

(** The missing-chunk scenario of the specification: five chunks declared,
    ordinal 2 absent, ordinals 0, 1, 3 and 4 stored. *)
Definition gap_state : State :=
  mkState [mkUser "u" 1000000]
          []
          {[ "s" := {[ part_name 0 := [x0a; x0b];
                       part_name 1 := [x1a; x1b];
                       part_name 3 := [x3a; x3b];
                       part_name 4 := [x4a] ]} ]}
          ∅.

Definition gap_req : CompleteReq :=
  mkCompleteReq (Some "u") (Some "s") (Some "a.bin") (Some "root")
                (JNum 5) (Some "text/plain") (JNum 9).

(** A completion signal without the [size] field. *)
Definition sizeless_req : CompleteReq :=
  mkCompleteReq (Some "u") (Some "s") (Some "a.bin") (Some "root")
                (JNum 1) (Some "text/plain") JUndefined.

(** An owner with one byte left and a stored session of one chunk of three
    bytes. *)
Definition one_byte_left_state : State :=
  mkState [mkUser "u" 100]
          [mkFile "f1" "u" None "old.bin" "file" 99 (Some "uploads/u/old.bin") None 1]
          {[ "s" := {[ part_name 0 := [x01; x02; x03] ]} ]}
          ∅.

End ServerSpec.

Module ClientSpec.
Import Js Splitter Client.

(** An update by id, as [updateTransfer] maps it over the list. *)
Definition upd (id : string) (u : Updates) (t : TransferItem) : TransferItem :=
  if String.eqb (t_id t) id then merge_updates t u else t.

(** The transfer [id] has taken the status [error] and every other transfer
    is as it was in [before]. *)
Definition only_failed (id : string) (before after : list TransferItem) : Prop :=
  after = map (upd id (mkUpdates (Some error) None None None None None None)) before.

(** The requests made for one ordinal from retry count [rc] on, when [n]
    retries are still allowed: the ordinal, the retry count, and the delay
    before the next request, if there is one. *)
Fixpoint failing_trace (chunkIndex rc : Z) (n : nat) : list (Z * Z * option Q) :=
  match n with
  | O => [(chunkIndex, rc, None)]
  | S k => (chunkIndex, rc, Some (retry_delay rc)) :: failing_trace chunkIndex (rc + 1) k
  end.

(** A status that does not count towards the active transfers. *)
Definition inactive (s : TransferStatus) : bool :=
  negb (status_eqb s processing || status_eqb s merging).

(** The moves of the provider when transfers come in through [uploadFiles]
    only: a batch is enqueued (the ids drawn are new), the queue effect
    runs, the chunk handler runs or one of its requests settles, a transfer
    is cancelled, the list is cleared, the status ref is synchronised. *)
Inductive batch_move : ClientState -> ClientState -> Prop :=
| move_enqueue st answer ids items :
    List.NoDup (map t_id (transfers (uploadFiles st answer ids items))) ->
    batch_move st (uploadFiles st answer ids items)
| move_queue_effect st now :
    batch_move st (fst (queue_effect now st))
| move_handler st transferId chunkIndex retryCount :
    batch_move st (fst (processUploadChunk st transferId chunkIndex retryCount))
| move_chunk_settled st transfer controller chunkIndex retryCount outcome now :
    batch_move st
      (fst (chunk_settled st transfer controller chunkIndex retryCount outcome now))
| move_complete_settled st transfer outcome :
    batch_move st (complete_settled st transfer outcome)
| move_cancel st id :
    batch_move st (cancelTransfer st id)
| move_clear st type :
    batch_move st (clearCompletedTransfers st type)
| move_sync st :
    batch_move st (sync_status_ref st).

Inductive batch_reachable : ClientState -> Prop :=
| reach_initial u : batch_reachable (initial u)
| reach_move st st' : batch_reachable st -> batch_move st st' -> batch_reachable st'.

(** What the moves preserve: the bound, and ids that are distinct. *)
Definition queue_inv (st : ClientState) : Prop :=
  activeCount (transfers st) <= MAX_CONCURRENT_UPLOADS
  /\ List.NoDup (map t_id (transfers st)).

(** A file of three bytes and a file of none. *)
Definition small_file : File := mkBrowserFile "a.bin" "text/plain" [x01; x02; x03].
Definition empty_file : File := mkBrowserFile "empty.txt" "text/plain" [].

(** The answer of the quota route, for an owner with nothing stored, to a
    request for [n] bytes. *)
Definition quota_answer (n : Z) : option Server.Response :=
  Some (Server.check_quota ServerSpec.fresh_owner_state
          (Server.mkQuotaReq (Some "u") (JNum n))).

(** A list with a completed, a failed and a running upload. *)
Definition finished_upload : TransferItem :=
  mkTransfer "t1" "a.bin" upload 100 completed 3 3 (Some small_file) (Some "up1")
             (Some 1) (Some 1) None (Some "root") (Some 10) (Some 0).

Definition failed_upload : TransferItem :=
  mkTransfer "t2" "b.bin" upload 0 error 3 0 (Some small_file) (Some "up2")
             (Some 0) (Some 1) None (Some "root") (Some 10) None.

Definition running_upload : TransferItem :=
  mkTransfer "t3" "c.bin" upload 0 processing 3 0 (Some small_file) (Some "up3")
             (Some 0) (Some 1) None (Some "root") (Some 10) None.

Definition panel_state : ClientState :=
  mkClient (Some "u") None [finished_upload; failed_upload; running_upload] ∅ ∅ [] ∅ 0.

(** One file enqueued with [uploadFiles], then promoted by the queue effect,
    then with its first chunk request in flight. *)
Definition enqueued_state : ClientState :=
  uploadFiles (initial (Some "u")) (quota_answer 3) [("t1", "up1")] [(small_file, None)].

Definition promoted_state : ClientState := fst (queue_effect 10 enqueued_state).

Definition uploading_state : ClientState := fst (processUploadChunk promoted_state "t1" 0 0).

(** A download whose [fetch] is in flight. *)
Definition downloading_state : ClientState :=
  downloadFile (initial (Some "u")) "d1" "a.bin" false.

(** Two files enqueued together and both promoted. *)
Definition two_uploads_state : ClientState :=
  fst (queue_effect 11
         (fst (queue_effect 10
                 (uploadFiles (initial (Some "u")) (quota_answer 6)
                    [("t1", "up1"); ("t2", "up2")]
                    [(small_file, None); (small_file, None)])))).

(** An empty file and a three-byte file enqueued together, the quota route
    having been asked about their total size, and the first promoted. *)
Definition mixed_batch : list (File * option string) :=
  [(empty_file, None); (small_file, None)].

Definition mixed_state : ClientState :=
  fst (queue_effect 10
         (uploadFiles (initial (Some "u")) (quota_answer (totalSize mixed_batch))
            [("t1", "up1"); ("t2", "up2")] mixed_batch)).

(** Six files offered one by one through [uploadFile]. *)
Definition six_singles : ClientState :=
  fold_left
    (fun st ids => fst (uploadFile st (quota_answer 3) (fst ids) (snd ids) small_file None))
    [("t1", "up1"); ("t2", "up2"); ("t3", "up3");
     ("t4", "up4"); ("t5", "up5"); ("t6", "up6")]
    (initial (Some "u")).

(** Seven files enqueued together, then the queue effect run four and five
    times. *)
Definition seven_ids : list (string * string) :=
  [("t1", "up1"); ("t2", "up2"); ("t3", "up3"); ("t4", "up4");
   ("t5", "up5"); ("t6", "up6"); ("t7", "up7")].

Definition seven_items : list (File * option string) :=
  [(small_file, None); (small_file, None); (small_file, None); (small_file, None);
   (small_file, None); (small_file, None); (small_file, None)].

Definition seven_enqueued : ClientState :=
  uploadFiles (initial (Some "u")) (quota_answer 21) seven_ids seven_items.

Definition four_of_seven : ClientState :=
  fst (queue_effect 13
         (fst (queue_effect 12
                 (fst (queue_effect 11 (fst (queue_effect 10 seven_enqueued))))))).

Definition five_of_seven : ClientState := fst (queue_effect 14 four_of_seven).

(** The transfer with the given id. *)
Definition transfer_of (st : ClientState) (id : string) : TransferItem :=
  default (new_upload id "" small_file error "") (find_transfer (transfers st) id).

(** Six downloads started one after the other. *)
Definition six_downloads : ClientState :=
  fold_left (fun st id => downloadFile st id "a.bin" false)
            ["d1"; "d2"; "d3"; "d4"; "d5"; "d6"] (initial (Some "u")).

End ClientSpec.

(* ===================================================================== *)
(** ** The server: chunk receiver, legacy upload, folders, deletion,
       sharing and the user list *)
(* ===================================================================== *)

Module Routes.
Import Js Server.

(** A row of table [shared_files]. *)
Record ShareRow : Type := mkShare {
  s_id : string;
  s_file_id : string;
  s_from_user_id : string;
  s_to_user_id : string;
  s_created_at : Z
}.

(** One user of the list of [GET /api/users]: the id, the limit and the
    bytes used. *)
Record UserInfo : Type := mkUserInfo {
  ui_id : string;
  ui_storageLimitBytes : Z;
  ui_usedStorageBytes : Z
}.

(** The answers of the routes of this section. *)
Inductive Reply : Type :=
| Success                                       (* 200 { success: true } *)
| Failure (code : Z)                            (* an error status, { error: ... } *)
| Entry (row : FileRow)                         (* 200, the fields of an entry *)
| Download (name : string) (bytes : list byte)  (* res.download(path, name) *)
| Users (rows : list UserInfo)                  (* 200, the mapped users *)
| Listing (rows : list FileRow).                (* 200, rows of [files] *)


Definition set_files (st : State) (fs : list FileRow) : State :=
  mkState (users st) fs (temp st) (disk st).

(** [parentId === 'root' ? null : parentId] *)
Definition root_is_null (parentId : option string) : option string :=
  match parentId with
  | Some p => if String.eqb p "root" then None else Some p
  | None => None
  end.


(** *** [POST /api/upload/chunk] *)



(** *** [POST /api/upload], the legacy route *)



(** *** [POST /api/folder] *)

Record FolderReq : Type := mkFolderReq {
  fo_userId : option string;          (* body.userId *)
  fo_parentId : option string;
  fo_name : option string
}.

(** [parent_id IS ?]: equal, or both [NULL]. *)
Definition is_same (a b : option string) : bool :=
  match a, b with
  | Some x, Some y => String.eqb x y
  | None, None => true
  | _, _ => false
  end.

(** [SELECT * FROM files WHERE user_id = ? AND parent_id IS ? AND name = ?
     AND type = "folder"] *)
Definition find_folder (fs : list FileRow) (userId : string) (parent : option string)
           (name : string) : option FileRow :=
  List.find
    (fun f => String.eqb (f_user_id f) userId && is_same (f_parent_id f) parent
              && String.eqb (f_name f) name && String.eqb (f_type f) "folder")
    fs.

(** The answer for a folder: its size is given as 0 and it has no MIME
    type. *)
Definition folder_entry (id userId : string) (parent : option string) (name : string)
           (createdAt : Z) : FileRow :=
  mkFile id userId parent name "folder" 0 None None createdAt.

Definition create_folder (fuel : nat) (env : Env) (st : State) (req : FolderReq)
  : option (Reply * State) :=
  if negb (truthy_str (fo_userId req)) || negb (truthy_str (fo_name req))
  then Some (Failure 400, st)
  else
    let userId := default "" (fo_userId req) in
    let name := default "" (fo_name req) in
    let parent := root_is_null (fo_parentId req) in
    match find_folder (files st) userId parent name with
    | Some existingFolder =>
        Some (Entry (folder_entry (f_id existingFolder) (f_user_id existingFolder)
                                  (f_parent_id existingFolder) (f_name existingFolder)
                                  (f_created_at existingFolder)),
              st)
    | None =>
        match getPhysicalPath fuel (files st) userId (fo_parentId req) with
        | None => None
        | Some parentPath =>
            let folderPath := path_join parentPath name in
            let row := mkFile (fresh_id env) userId parent name "folder" 0
                              (Some folderPath) None (now env) in
            Some (Entry (folder_entry (fresh_id env) userId parent name (now env)),
                  set_files st (files st ++ [row]))
        end
    end.

(** *** [DELETE /api/files/:id] *)

(** [DELETE FROM files WHERE id = ?] *)
Definition delete_row (fs : list FileRow) (id : string) : list FileRow :=
  List.filter (fun f => negb (String.eqb (f_id f) id)) fs.

(** [SELECT id, type FROM files WHERE parent_id = ?] *)
Definition children_of (fs : list FileRow) (folderId : string) : list FileRow :=
  List.filter (fun f => is_same (f_parent_id f) (Some folderId)) fs.

(** [deleteDbFolderRecursively]: the children are read once, each child
    folder is emptied before its row is deleted, and the row of the folder
    goes last.  The recursion has no bound in the source; [None] is a descent
    deeper than the fuel. *)
Fixpoint deleteDbFolderRecursively (fuel : nat) (fs : list FileRow) (folderId : string)
  : option (list FileRow) :=
  match fuel with
  | O => None
  | S fuel' =>
      let children := children_of fs folderId in
      match
        fold_left
          (fun acc child =>
             match acc with
             | None => None
             | Some cur =>
                 match (if String.eqb (f_type child) "folder"
                        then deleteDbFolderRecursively fuel' cur (f_id child)
                        else Some cur) with
                 | Some cur' => Some (delete_row cur' (f_id child))
                 | None => None
                 end
             end)
          children (Some fs)
      with
      | Some cur => Some (delete_row cur folderId)
      | None => None
      end
  end.

(** [a.startsWith(b)] *)
Fixpoint starts_with (a b : string) : bool :=
  match b, a with
  | EmptyString, _ => true
  | String y b', String x a' => Ascii.eqb x y && starts_with a' b'
  | String _ _, EmptyString => false
  end.

(** [fs.rmdirSync(dir, { recursive: true })], as seen on the regular files:
    those below the directory go. *)
Definition rmdir_recursive (dir : string) (d : gmap string (list byte))
  : gmap string (list byte) :=
  filter (fun kv => starts_with (fst kv) (dir +:+ "/") = false) d.

(** [SELECT * FROM files WHERE id = ? AND user_id = ?]; a missing header
    matches no row. *)
Definition find_owned (fs : list FileRow) (id : string) (user : option string)
  : option FileRow :=
  match user with
  | Some userId =>
      List.find (fun f => String.eqb (f_id f) id && String.eqb (f_user_id f) userId) fs
  | None => None
  end.

Definition delete_node (fuel : nat) (st : State) (id : string) (user : option string)
  : option (Reply * State) :=
  match find_owned (files st) id user with
  | None => Some (Failure 404, st)
  | Some file =>
      let disk1 :=
        if String.eqb (f_type file) "file" && truthy_str (f_path file)
        then delete (default "" (f_path file)) (disk st)
        else disk st in
      let files1 := delete_row (files st) id in
      if String.eqb (f_type file) "folder" then
        match deleteDbFolderRecursively fuel files1 id with
        | None => None
        | Some files2 =>
            let disk2 := if truthy_str (f_path file)
                         then rmdir_recursive (default "" (f_path file)) disk1
                         else disk1 in
            Some (Success, mkState (users st) files2 (temp st) disk2)
        end
      else Some (Success, mkState (users st) files1 (temp st) disk1)
  end.

(** *** [POST /api/share], [DELETE /api/shared], [GET /api/download/:id] *)

(** [SELECT id FROM shared_files WHERE file_id = ? AND to_user_id = ?] *)
Definition find_share (shares : list ShareRow) (fileId toUserId : string) : option ShareRow :=
  List.find (fun s => String.eqb (s_file_id s) fileId && String.eqb (s_to_user_id s) toUserId)
            shares.

(** The inner loop of the share route for one file; [uuid n] is the [n]-th
    uuid drawn in the request and [k] the number drawn so far. *)
Fixpoint share_with (uuid : nat -> string) (now : Z) (fromUserId fileId : string)
         (userIds : list string) (acc : list ShareRow * nat) : list ShareRow * nat :=
  match userIds with
  | [] => acc
  | toUserId :: rest =>
      let '(shares, k) := acc in
      share_with uuid now fromUserId fileId rest
        (match find_share shares fileId toUserId with
         | Some _ => (shares, k)
         | None => (shares ++ [mkShare (uuid k) fileId fromUserId toUserId now], S k)
         end)
  end.

Fixpoint share_all (uuid : nat -> string) (now : Z) (fromUserId : string)
         (fileIds userIds : list string) (acc : list ShareRow * nat) : list ShareRow * nat :=
  match fileIds with
  | [] => acc
  | fileId :: rest =>
      share_all uuid now fromUserId rest userIds
                (share_with uuid now fromUserId fileId userIds acc)
  end.

Definition share (uuid : nat -> string) (now : Z) (shares : list ShareRow)
           (fromUser : option string) (fileIds userIds : option (list string))
  : Reply * list ShareRow :=
  match fileIds, userIds with
  | Some fs, Some us =>
      if negb (truthy_str fromUser) then (Failure 400, shares)
      else (Success, fst (share_all uuid now (default "" fromUser) fs us (shares, O)))
  | _, _ => (Failure 400, shares)
  end.

(** [DELETE FROM shared_files WHERE to_user_id = ?] *)
Definition clear_shared (shares : list ShareRow) (user : option string)
  : Reply * list ShareRow :=
  if negb (truthy_str user) then (Failure 400, shares)
  else
    (Success,
     List.filter (fun s => negb (String.eqb (s_to_user_id s) (default "" user))) shares).

(** The first of the two handlers registered for [GET /api/download/:id],
    the one Express runs; [queryUser] is [req.query.userId]. *)
Definition download (st : State) (shares : list ShareRow) (id : string)
           (headerUser queryUser : option string) : Reply :=
  let user := if truthy_str headerUser then headerUser else queryUser in
  if negb (truthy_str user) then Failure 400
  else
    let userId := default "" user in
    match find_file (files st) id with
    | None => Failure 404
    | Some file =>
        if String.eqb (f_type file) "folder" then Failure 400
        else
          let hasAccess :=
            String.eqb (f_user_id file) userId
            || match find_share shares id userId with
               | Some _ => true
               | None => false
               end in
          if negb hasAccess then Failure 403
          else
            match (if truthy_str (f_path file) then disk st !! default "" (f_path file)
                   else None) with
            | Some bytes => Download (f_name file) bytes
            | None => Failure 404
            end
    end.

(** *** [GET /api/users] *)

(** [SELECT user_id, SUM(size) as total_size FROM files WHERE type != "folder"
     GROUP BY user_id], read through [usageMap.get(u.id) || 0]: the sum over
    the rows of the user that are not folders, and 0 for a user without such
    rows. *)
Definition usage_of (fs : list FileRow) (id : string) : Z :=
  fold_right Z.add 0
    (map f_size
       (List.filter
          (fun f => String.eqb (f_user_id f) id && negb (String.eqb (f_type f) "folder"))
          fs)).

Definition list_users (st : State) : Reply :=
  Users (map (fun u => mkUserInfo (u_id u) (u_storage_limit u) (usage_of (files st) (u_id u)))
             (users st)).

(** *** [checkFolderAccess] and [GET /api/browse/:folderId] *)

(** One round of the loop of [checkFolderAccess], with the ids visited so
    far; the loop ends on an id seen before, on a missing row, and at the
    top of the tree.  [None] is a walk longer than the fuel. *)
Fixpoint checkFolderAccess_from (fuel : nat) (fs : list FileRow) (shares : list ShareRow)
         (userId : string) (visited : list string) (curr : option string) : option bool :=
  match fuel with
  | O => None
  | S fuel' =>
      match curr with
      | None => Some false
      | Some c =>
          if String.eqb c "" || existsb (String.eqb c) visited then Some false
          else
            match find_file fs c with
            | None => Some false
            | Some file =>
                if String.eqb (f_user_id file) userId then Some true
                else
                  match find_share shares c userId with
                  | Some _ => Some true
                  | None =>
                      checkFolderAccess_from fuel' fs shares userId (c :: visited)
                                             (f_parent_id file)
                  end
            end
      end
  end.

(** The walk visits each row once at most, so one round more than there are
    rows is fuel enough. *)
Definition checkFolderAccess (fs : list FileRow) (shares : list ShareRow)
           (folderId userId : string) : option bool :=
  checkFolderAccess_from (S (S (length fs))) fs shares userId [] (Some folderId).

Definition browse (st : State) (shares : list ShareRow) (folderId : string)
           (user : option string) : option Reply :=
  if negb (truthy_str user) || String.eqb folderId "" then Some (Failure 400)
  else
    match checkFolderAccess (files st) shares folderId (default "" user) with
    | None => None
    | Some false => Some (Failure 403)
    | Some true => Some (Listing (children_of (files st) folderId))
    end.

End Routes.

Module RoutesSpec.
Import Js Server ServerSpec Routes.




(** The pairs (file, recipient) of a share table. *)
Definition share_pairs (shares : list ShareRow) : list (string * string) :=
  map (fun s => (s_file_id s, s_to_user_id s)) shares.

(** Every row is a file or a folder. *)
Definition typed_rows (fs : list FileRow) : Prop :=
  Forall (fun f => f_type f = "file" \/ f_type f = "folder") fs.

(** An owner with two stored files and a folder, and a second user. *)
Definition two_users_state : State :=
  mkState [mkUser "u" 1000; mkUser "v" 1000]
          [mkFile "f1" "u" None "a.bin" "file" 3 (Some "uploads/u/a.bin") None 1;
           mkFile "d1" "u" None "docs" "folder" 0 (Some "uploads/u/docs") None 1;
           mkFile "f2" "u" (Some "d1") "b.bin" "file" 2 (Some "uploads/u/docs/b.bin") None 1]
          ∅
          {[ "uploads/u/a.bin" := [x01; x02; x03];
             "uploads/u/docs/b.bin" := [x04; x05] ]}.










(** A request for a folder [docs] at the root of user [u]. *)
Definition docs_req : FolderReq := mkFolderReq (Some "u") (Some "root") (Some "docs").

(** The ids of a catalog are distinct (the column is the primary key). *)
Definition distinct_ids (fs : list FileRow) : Prop := List.NoDup (map f_id fs).

(** The user has a row of [shared_files] for the file. *)
Definition shared_with (shares : list ShareRow) (fileId userId : string) : Prop :=
  In (fileId, userId) (share_pairs shares).

(** A uuid source. *)
Definition uuid_n (n : nat) : string := "share-" +:+ pretty n.


(** The walk of [checkFolderAccess] as a relation: from [c], with the ids in
    [visited] closed, the walk reaches a row that [userId] owns or that is
    shared with [userId]. *)
Inductive grants (fs : list FileRow) (shares : list ShareRow) (userId : string)
  : list string -> string -> Prop :=
| grants_here visited c file :
    c <> "" -> ~ In c visited -> find_file fs c = Some file ->
    f_user_id file = userId \/ shared_with shares c userId ->
    grants fs shares userId visited c
| grants_up visited c file p :
    c <> "" -> ~ In c visited -> find_file fs c = Some file ->
    f_user_id file <> userId -> ~ shared_with shares c userId ->
    f_parent_id file = Some p ->
    grants fs shares userId (c :: visited) p ->
    grants fs shares userId visited c.

(** A folder of [u] with a subfolder and a file in it. *)
Definition nested_state : State :=
  mkState [mkUser "u" 1000; mkUser "v" 1000]
          [mkFile "d1" "u" None "docs" "folder" 0 (Some "uploads/u/docs") None 1;
           mkFile "d2" "u" (Some "d1") "sub" "folder" 0 (Some "uploads/u/docs/sub") None 1;
           mkFile "f3" "u" (Some "d2") "c.bin" "file" 2 (Some "uploads/u/docs/sub/c.bin")
                  None 1]
          ∅
          {[ "uploads/u/docs/sub/c.bin" := [x04; x05] ]}.

(** Only folders have children. *)
Definition files_are_leaves (fs : list FileRow) : Prop :=
  forall r c, In r fs -> In c fs -> f_type r <> "folder" -> f_parent_id c <> Some (f_id r).

(** From [fs] to [fs'] rows were only removed, and no row that is left
    names a removed row as its parent. *)
Definition closed_removal (fs fs' : list FileRow) : Prop :=
  incl fs' fs
  /\ forall r c, In r fs -> ~ In (f_id r) (map f_id fs') -> In c fs' ->
                 f_parent_id c <> Some (f_id r).

(** [nested_state] after the owner has deleted the folder [d1]. *)
Definition emptied_state : State := mkState [mkUser "u" 1000; mkUser "v" 1000] [] ∅ ∅.


End RoutesSpec.

(* ===================================================================== *)
(** ** An upload on the wire *)
(* ===================================================================== *)

Module UploadSpec.
Import Js Splitter Server Client ClientSpec Routes RoutesSpec.







(** The transfer of [enqueued_state] once promoted. *)
Definition promoted_upload : TransferItem :=
  mkTransfer "t1" "a.bin" upload 0 processing 3 0 (Some small_file) (Some "up1")
             (Some 0) (Some 1) None (Some "root") (Some 10) None.

End UploadSpec.

(* ===================================================================== *)
(** ** The folder view of the client *)
(* ===================================================================== *)

Module ClientView.
Import Js.

(** [FileNode], as the provider keeps it in [files]. *)
Record FileNode : Type := mkNode {
  n_id : string;
  n_parentId : option string;      (* null for root *)
  n_ownerId : string;
  n_name : string;
  n_type : string;
  n_size : Z;
  n_mimeType : option string;
  n_createdAt : Z
}.

(** [files.find(f => f.id === currId)] *)
Definition find_node (files : list FileNode) (currId : string) : option FileNode :=
  List.find (fun f => String.eqb (n_id f) currId) files.

(** The loop of [breadcrumbs]: [while (currId)], with [path.unshift(node)]
    and [currId = node.parentId] when the node is found, and [break] when it
    is not.  The loop has no bound in the source; [None] is a walk longer
    than the fuel. *)
Fixpoint breadcrumbs_from (fuel : nat) (files : list FileNode) (path : list FileNode)
         (currId : option string) : option (list FileNode) :=
  match fuel with
  | O => None
  | S fuel' =>
      if truthy_str currId then
        match find_node files (default "" currId) with
        | Some node => breadcrumbs_from fuel' files (node :: path) (n_parentId node)
        | None => Some path
        end
      else Some path
  end.

Definition breadcrumbs (fuel : nat) (files : list FileNode) (currentFolderId : option string)
  : option (list FileNode) :=
  breadcrumbs_from fuel files [] currentFolderId.

End ClientView.

Module ClientViewSpec.
Import Js ClientView.

(** The id [k] parent links above [c]; [None] when the links end before. *)
Fixpoint ancestor (files : list FileNode) (k : nat) (c : string) : option string :=
  match k with
  | O => Some c
  | S k' =>
      match find_node files c with
      | Some node =>
          match n_parentId node with
          | Some p => if String.eqb p "" then None else ancestor files k' p
          | None => None
          end
      | None => None
      end
  end.

(** Following the parent links from [c] leads back to [c]. *)
Definition on_cycle (files : list FileNode) (c : string) : Prop :=
  exists k, ancestor files (S k) c = Some c.

(** Each node of the path is the parent of the next one. *)
Fixpoint linked (path : list FileNode) : Prop :=
  match path with
  | a :: rest =>
      match rest with
      | b :: _ => n_parentId b = Some (n_id a) /\ linked rest
      | [] => True
      end
  | [] => True
  end.

(** The parent link of a node leads nowhere: it is empty, or names no node
    of the list. *)
Definition top (files : list FileNode) (node : FileNode) : Prop :=
  truthy_str (n_parentId node) = false
  \/ exists p, n_parentId node = Some p /\ find_node files p = None.

(** A folder in a folder, and two folders that name each other as parent. *)
Definition two_levels : list FileNode :=
  [mkNode "d1" None "u" "docs" "folder" 0 None 1;
   mkNode "d2" (Some "d1") "u" "sub" "folder" 0 None 1].

Definition two_in_a_ring : list FileNode :=
  [mkNode "a" (Some "b") "u" "a" "folder" 0 None 1;
   mkNode "b" (Some "a") "u" "b" "folder" 0 None 1].

End ClientViewSpec.

(* ===================================================================== *)
(** ** Batches of the client *)
(* ===================================================================== *)

Module TransferSpec.
Import Js Splitter Server ServerSpec Client ClientSpec.

(** A batch of one file of three bytes, and the ids drawn for it. *)
Definition one_file_batch : list (File * option string) := [(small_file, None)].
Definition one_file_ids : list (string * string) := [("t1", "up1")].

End TransferSpec.

(* ===================================================================== *)
(** ** Properties of the splitter *)
(* ===================================================================== *)

Module SplitterProps.
Import Splitter.

Lemma ceil_div_last (S C r : Z) :
  0 < r <= S -> ceil_div ((C - 1) * S + r) S = C.
Proof.
  intros Hr. unfold ceil_div.
  assert (HS : 0 < S) by lia.
  assert (Hq : (- ((C - 1) * S + r)) / S = - C).
  { symmetry. apply (Z.div_unique_pos _ S (- C) (S - r)); lia. }
  rewrite Hq. lia.
Qed.

(** A chunk is the next [cs] bytes of what is left of the file. *)
Lemma chunk_at_take (cs : Z) (data : list byte) (i : Z) :
  0 < cs -> 0 <= i ->
  chunk_at cs data i = take (Z.to_nat cs) (drop (Z.to_nat (i * cs)) data).
Proof.
  intros Hcs Hi. unfold chunk_at, slice, file_size.
  set (d := drop (Z.to_nat (i * cs)) data).
  assert (Hlen : length d = (length data - Z.to_nat (i * cs))%nat)
    by (subst d; apply length_drop).
  destruct (Z.min_spec (i * cs + cs) (Z.of_nat (length data))) as [[Hlt ->]|[Hge ->]].
  - f_equal. lia.
  - rewrite !take_ge; [reflexivity | lia | nia].
Qed.

Lemma concat_chunks_from (cs : Z) (data : list byte) (n : nat) :
  0 < cs -> forall i, 0 <= i ->
  concat (chunks_from cs data i n)
  = take (n * Z.to_nat cs) (drop (Z.to_nat (i * cs)) data).
Proof.
  intros Hcs. induction n as [|n IH]; intros i Hi; simpl.
  - reflexivity.
  - rewrite chunk_at_take by lia. rewrite IH by lia.
    replace (Z.to_nat ((i + 1) * cs)) with (Z.to_nat (i * cs) + Z.to_nat cs)%nat by nia.
    rewrite <- drop_drop. apply take_take_drop.
Qed.

Lemma length_chunks_from (cs : Z) (data : list byte) (n : nat) (i : Z) :
  length (chunks_from cs data i n) = n.
Proof. revert i. induction n as [|n IH]; intros i; simpl; [reflexivity | now rewrite IH]. Qed.

Lemma ceil_div_covers (a b : Z) : 0 < b -> a <= b * ceil_div a b.
Proof.
  intros Hb. unfold ceil_div. pose proof (Z.mul_div_le (- a) b Hb). lia.
Qed.

Lemma ceil_div_nonneg (a b : Z) : 0 < b -> 0 <= a -> 0 <= ceil_div a b.
Proof.
  intros Hb Ha. unfold ceil_div.
  assert ((- a) / b <= 0) by (apply Z.div_le_upper_bound; lia). lia.
Qed.

(** Whatever the size of the file, the chunks the loop cuts, concatenated,
    are the file. *)
Lemma concat_split (cs : Z) (data : list byte) :
  0 < cs -> concat (split cs data) = data.
Proof.
  intros Hcs. unfold split. rewrite concat_chunks_from by lia.
  replace (Z.to_nat (0 * cs)) with 0%nat by lia. rewrite drop_0.
  apply take_ge. unfold totalChunks, file_size.
  pose proof (ceil_div_covers (Z.of_nat (length data)) cs Hcs).
  pose proof (ceil_div_nonneg (Z.of_nat (length data)) cs Hcs ltac:(lia)).
  rewrite <- Z2Nat.inj_mul by lia. lia.
Qed.

(** C3.  A file of [F = (C - 1) * S + r] bytes, with [C >= 1] and
    [0 < r <= S], is cut into exactly [C] chunks ([totalChunks] is [C] and
    the upload loop sends [C] bodies), chunk [i] being the bytes
    [[i * S, min ((i + 1) * S, F))], and the chunks concatenated in ordinal
    order are the file. *)
Theorem split_reconstructs (S C r : Z) (data : list byte) :
  1 <= C -> 0 < r <= S ->
  file_size data = (C - 1) * S + r ->
  totalChunks S data = C
  /\ length (split S data) = Z.to_nat C
  /\ (forall i, 0 <= i < C ->
        split S data !! Z.to_nat i
        = Some (slice data (i * S) (Z.min ((i + 1) * S) (file_size data))))
  /\ concat (split S data) = data.
Proof.
  intros HC Hr HF.
  assert (HT : totalChunks S data = C).
  { unfold totalChunks. rewrite HF. now apply ceil_div_last. }
  split; [exact HT|]. unfold split. rewrite HT.
  split; [apply length_chunks_from|]. split.
  - intros i Hi.
    assert (Hgen : forall n j k, (k < n)%nat ->
              chunks_from S data j n !! k = Some (chunk_at S data (j + Z.of_nat k))).
    { induction n as [|n IH]; intros j k Hk; [lia|].
      destruct k as [|k]; simpl.
      - f_equal. f_equal. lia.
      - rewrite IH by lia. f_equal. f_equal. lia. }
    rewrite Hgen by lia. rewrite Z2Nat.id by lia. simpl (0 + i).
    unfold chunk_at. do 2 f_equal. lia.
  - rewrite concat_chunks_from by lia.
    replace (Z.to_nat (0 * S)) with 0%nat by lia. rewrite drop_0.
    apply take_ge. unfold file_size in HF.
    rewrite <- Z2Nat.inj_mul by lia. lia.
Qed.

(** Five bytes cut with a chunk size of two: two full chunks and a last one of
    a single byte. *)
Lemma split_reconstructs_witness :
  totalChunks 2 [x01; x02; x03; x04; x05] = 3
  /\ length (split 2 [x01; x02; x03; x04; x05]) = 3%nat
  /\ (forall i, 0 <= i < 3 ->
        split 2 [x01; x02; x03; x04; x05] !! Z.to_nat i
        = Some (slice [x01; x02; x03; x04; x05] (i * 2)
                      (Z.min ((i + 1) * 2) (file_size [x01; x02; x03; x04; x05]))))
  /\ concat (split 2 [x01; x02; x03; x04; x05]) = [x01; x02; x03; x04; x05].
Proof.
  apply (split_reconstructs 2 3 1 [x01; x02; x03; x04; x05]); [lia | lia | reflexivity].
Defined.

(** The happy path of the specification: a file of 25 MB gives three chunks
    with the chunk size of the client. *)
Example three_chunks_for_25_MB :
  ceil_div (25 * 1024 * 1024) CHUNK_SIZE = 3
  /\ ceil_div 0 CHUNK_SIZE = 0
  /\ ceil_div CHUNK_SIZE CHUNK_SIZE = 1
  /\ ceil_div (CHUNK_SIZE + 1) CHUNK_SIZE = 2.
Proof. repeat split. Qed.

End SplitterProps.

(* ===================================================================== *)
(** ** Properties of the server routes *)
(* ===================================================================== *)

Module ServerProps.
Import Js Server ServerSpec.

Lemma truthy_str_nonempty (s : string) : s <> "" -> truthy_str (Some s) = true.
Proof.
  intros Hs. simpl. destruct (String.eqb_spec s ""); [contradiction | reflexivity].
Qed.

(** Past the required-field check the route is the quota gate followed by
    the merge. *)
Lemma upload_complete_past_guard fuel env st req userId uploadId fileName :
  required_fields req userId uploadId fileName ->
  upload_complete fuel env st req
  = match quota_gate st userId uploadId (c_size req) with
    | Rejected r st' => Some (r, st')
    | Passed => merge fuel env st userId uploadId fileName req
    end.
Proof.
  intros (Hu & Hu' & Hp & Hp' & Hf & Hf' & Ht). unfold upload_complete.
  rewrite Hu, Hp, Hf, Ht, !truthy_str_nonempty by assumption. reflexivity.
Qed.


(** *** The quota gate *)



(** *** Rejection for lack of capacity *)




(** The figures of that answer: 900,000 used of 1,000,000, 100,000
    available, 200,000 requested. *)
Example quota_scenario_figures :
  current_usage (files nearly_full_state) "u" = 900000
  /\ u_storage_limit (mkUser "u" 1000000) - current_usage (files nearly_full_state) "u"
     = 100000
  /\ or_zero (parseInt (c_size big_file_req)) = 200000
  /\ or_zero (parseInt (JStr "200000")) = 200000.
Proof. repeat split. Qed.

(** *** A chunk missing at assembly *)

Lemma part_name_inj (i j : Z) : part_name i = part_name j -> i = j.
Proof.
  unfold part_name. simpl. intros [= H]. exact (pretty_Z_inj _ _ H).
Qed.

Lemma stored_prefix_delete dir i0 j k :
  j < i0 -> stored_prefix (delete (part_name j) dir) i0 k = stored_prefix dir i0 k.
Proof.
  revert i0. induction k as [|k IH]; intros i0 Hlt; simpl; [reflexivity|].
  rewrite lookup_delete_ne by (intros H; apply part_name_inj in H; lia).
  rewrite IH by lia. reflexivity.
Qed.

(** With the chunks before ordinal [i0 + k] present and that one absent,
    the loop stops there, having written the earlier chunks and nothing
    else. *)
Lemma merge_chunks_missing (n : nat) :
  forall (dir : gmap string (list byte)) out i0 (k : nat),
    (k < n)%nat ->
    (forall j : nat, (j < k)%nat -> is_Some (dir !! part_name (i0 + Z.of_nat j))) ->
    dir !! part_name (i0 + Z.of_nat k) = None ->
    exists dir',
      merge_chunks dir out i0 n
      = (dir', out ++ stored_prefix dir i0 k, Some (i0 + Z.of_nat k))
      /\ (forall j, i0 + Z.of_nat k < j -> dir' !! part_name j = dir !! part_name j).
Proof.
  induction n as [|n IH]; intros dir out i0 k Hk Hpre Hmiss; [lia|].
  destruct k as [|k]; simpl.
  - rewrite Z.add_0_r in Hmiss. rewrite Hmiss. exists dir.
    rewrite app_nil_r, Z.add_0_r. split; [reflexivity | auto].
  - destruct (Hpre O ltac:(lia)) as [b Hb]. rewrite Z.add_0_r in Hb. rewrite Hb. simpl.
    destruct (IH (delete (part_name i0) dir) (out ++ b) (i0 + 1) k) as (dir' & Heq & Hrest).
    + lia.
    + intros j Hj. rewrite lookup_delete_ne by (intros H; apply part_name_inj in H; lia).
      replace (i0 + 1 + Z.of_nat j) with (i0 + Z.of_nat (S j)) by lia. apply Hpre. lia.
    + rewrite lookup_delete_ne by (intros H; apply part_name_inj in H; lia).
      rewrite <- Hmiss. f_equal. f_equal. lia.
    + exists dir'. rewrite Heq, stored_prefix_delete by lia.
      rewrite <- app_assoc. split.
      * do 2 f_equal. lia.
      * intros j Hj. rewrite Hrest by lia.
        apply lookup_delete_ne. intros H; apply part_name_inj in H; lia.
Qed.

(** What the route does for any session whose first absent ordinal is
    [k < totalChunks]: it answers 500 and inserts nothing, and the
    destination path holds the bytes of the chunks before [k]. *)
Lemma missing_chunk_leaves_prefix fuel env st req userId uploadId fileName
      dir targetDir (t : Z) (k : nat) :
  required_fields req userId uploadId fileName ->
  quota_gate st userId uploadId (c_size req) = Passed ->
  getPhysicalPath fuel (files st) userId (c_parentId req) = Some targetDir ->
  parseInt (c_totalChunks req) = Some t ->
  temp st !! uploadId = Some dir ->
  Z.of_nat k < t ->
  (forall j : nat, (j < k)%nat -> is_Some (dir !! part_name (Z.of_nat j))) ->
  dir !! part_name (Z.of_nat k) = None ->
  exists st',
    upload_complete fuel env st req = Some (MergeFailed, st')
    /\ files st' = files st
    /\ disk st' !! path_join targetDir fileName = Some (stored_prefix dir 0 k).
Proof.
  intros Hreq Hgate Hdir Ht Htemp Hk Hpre Hmiss.
  rewrite (upload_complete_past_guard _ _ _ _ _ _ _ Hreq), Hgate.
  unfold merge. rewrite Hdir, Htemp. unfold rounds. rewrite Ht.
  destruct (Z.to_nat t) as [|n] eqn:Hn; [lia|]. rewrite <- Hn. simpl.
  destruct (merge_chunks_missing (Z.to_nat t) dir [] 0 k) as (dir' & Heq & _);
    [lia | exact Hpre | exact Hmiss |].
  rewrite Heq. simpl. eexists. split; [reflexivity|]. simpl.
  split; [reflexivity | apply lookup_insert_eq].
Qed.

(** C2.  At the scenario the route answers 500 and registers nothing, but
    the destination file is left on disk holding the bytes of chunks 0 and
    1 only, and those two chunks are gone from the session directory. *)
Theorem missing_chunk_leaves_truncated_file :
  exists st',
    upload_complete 8 (mkEnv "id" 2) gap_state gap_req = Some (MergeFailed, st')
    /\ status_code MergeFailed = 500
    /\ files st' = []
    /\ disk st' !! "uploads/u/a.bin" = Some [x0a; x0b; x1a; x1b]
    /\ temp st' !! "s" = Some {[ part_name 3 := [x3a; x3b]; part_name 4 := [x4a] ]}.
Proof.
  eexists. split; [vm_compute; reflexivity|]. vm_compute. repeat split.
Qed.

(** *** The advisory and the authoritative check *)

(** C7, as stated, fails at a requested byte count of zero: the commit-time
    check accepts it (0 <= 100 - 0) and the pre-flight route does not, its
    required-field check answering 400. *)
Lemma checks_differ_at_zero :
  find_user (users fresh_owner_state) "u" = Some (mkUser "u" 100)
  /\ 0 <= 100 - current_usage (files fresh_owner_state) "u"
  /\ commit_allows fresh_owner_state "u" "s" 0 = true
  /\ preflight_allows fresh_owner_state "u" 0 = false
  /\ check_quota fresh_owner_state (mkQuotaReq (Some "u") (JNum 0)) = BadRequest.
Proof. vm_compute. repeat split; congruence. Qed.

(** C7 (amended).  For every owner state and every requested byte count
    that is a safe integer: when the count is not zero, the two checks
    compute consumption by the same query, report the same used / limit /
    available figures, and accept the same sizes, each exactly when
    requested <= limit - consumption; when the count is zero, the
    pre-flight route answers 400 and accepts nothing, while the commit-time
    check accepts exactly when consumption <= limit. *)
Theorem checks_agree_except_at_zero st userId uploadId user n :
  userId <> "" ->
  find_user (users st) userId = Some user ->
  safe_integer n ->
  let used := current_usage (files st) userId in
  let limit := u_storage_limit user in
  (n <> 0 ->
   check_quota st (mkQuotaReq (Some userId) (JNum n))
   = QuotaReport (n <=? limit - used) used limit (limit - used) n
   /\ gate_response (quota_gate st userId uploadId (JNum n))
      = (if n <=? limit - used then None
         else Some (QuotaExceeded used limit (limit - used) n))
   /\ preflight_allows st userId n = commit_allows st userId uploadId n
   /\ (commit_allows st userId uploadId n = true <-> n <= limit - used))
  /\ (n = 0 ->
      check_quota st (mkQuotaReq (Some userId) (JNum n)) = BadRequest
      /\ preflight_allows st userId n = false
      /\ (commit_allows st userId uploadId n = true <-> used <= limit)
      /\ gate_response (quota_gate st userId uploadId (JNum n))
         = (if used <=? limit then None
            else Some (QuotaExceeded used limit (limit - used) 0))).
Proof.
  intros Hid Hu _ used limit.
  assert (Hg : quota_gate st userId uploadId (JNum n)
               = (if n <=? limit - used then Passed
                  else Rejected (QuotaExceeded used limit (limit - used) n)
                                (rm_temp uploadId st))).
  { unfold quota_gate. rewrite Hu. simpl. fold used limit.
    destruct (Z.ltb_spec (limit - used) n), (Z.leb_spec n (limit - used));
      try reflexivity; lia. }
  split.
  - intros Hn.
    assert (Hq : check_quota st (mkQuotaReq (Some userId) (JNum n))
                 = QuotaReport (n <=? limit - used) used limit (limit - used) n).
    { unfold check_quota. cbn [q_user q_fileSize]. rewrite truthy_str_nonempty by assumption.
      simpl truthy. destruct (Z.eqb_spec n 0); [contradiction|]. simpl.
      rewrite Hu. reflexivity. }
    split; [exact Hq|]. unfold preflight_allows, commit_allows. rewrite Hq, Hg.
    destruct (Z.leb_spec n (limit - used)); simpl; repeat split;
      intros; try reflexivity; try lia; try discriminate.
  - intros ->.
    assert (Hq : check_quota st (mkQuotaReq (Some userId) (JNum 0)) = BadRequest).
    { unfold check_quota. cbn [q_user q_fileSize]. simpl truthy.
      now rewrite orb_true_r. }
    split; [exact Hq|]. unfold preflight_allows, commit_allows. rewrite Hq, Hg.
    split; [reflexivity|].
    destruct (Z.leb_spec 0 (limit - used)), (Z.leb_spec used limit); try lia;
      simpl; repeat split; intros; try reflexivity; try lia; try discriminate.
Qed.

(** Both checks refuse 200,000 bytes when 100,000 are available, with the
    same figures; and for the owner with one byte left they part at zero
    bytes. *)
Lemma checks_agree_except_at_zero_witness :
  (check_quota nearly_full_state (mkQuotaReq (Some "u") (JNum 200000))
   = QuotaReport false 900000 1000000 100000 200000
   /\ gate_response (quota_gate nearly_full_state "u" "s" (JNum 200000))
      = Some (QuotaExceeded 900000 1000000 100000 200000)
   /\ preflight_allows nearly_full_state "u" 200000
      = commit_allows nearly_full_state "u" "s" 200000
   /\ (commit_allows nearly_full_state "u" "s" 200000 = true <-> 200000 <= 100000))
  /\ (check_quota one_byte_left_state (mkQuotaReq (Some "u") (JNum 0)) = BadRequest
      /\ preflight_allows one_byte_left_state "u" 0 = false
      /\ (commit_allows one_byte_left_state "u" "s" 0 = true <-> 99 <= 100)
      /\ gate_response (quota_gate one_byte_left_state "u" "s" (JNum 0)) = None).
Proof.
  split.
  - refine (proj1 (checks_agree_except_at_zero nearly_full_state "u" "s"
                     (mkUser "u" 1000000) 200000 _ _ _) _).
    + discriminate.
    + reflexivity.
    + vm_compute. split; discriminate.
    + discriminate.
  - refine (proj2 (checks_agree_except_at_zero one_byte_left_state "u" "s"
                     (mkUser "u" 100) 0 _ _ _) _).
    + discriminate.
    + reflexivity.
    + vm_compute. split; discriminate.
    + reflexivity.
Defined.

(** *** A completion request without a usable size *)





(** At that input the three-byte file is registered although one byte was
    left. *)
Example sizeless_request_overshoots :
  exists entry st',
    upload_complete 8 (mkEnv "id" 2) one_byte_left_state sizeless_req
    = Some (Created entry, st')
    /\ f_size entry = 3
    /\ current_usage (files st') "u" = 102.
Proof. eexists _, _. split; [vm_compute; reflexivity|]. split; reflexivity. Qed.

(** Strings without a leading number are read as no size; leading white
    space, a no-break space included, is skipped before the number; and of
    the exponent form that [String] gives a number from 10^21 on, only the
    leading digit is read. *)
Example unreadable_sizes :
  no_declared_size (JStr "abc") /\ no_declared_size (JStr "") /\ no_declared_size JNull
  /\ no_declared_size (JBool true) /\ parseInt (JStr " 12px") = Some 12
  /\ parseInt (JStr (String (ascii_of_nat 160) "12")) = Some 12
  /\ parseInt (JStr "1e+21") = Some 1.
Proof. repeat split; right; reflexivity. Qed.

End ServerProps.

(* ===================================================================== *)
(** ** Properties of the client queue *)
(* ===================================================================== *)

Module ClientProps.
Import Js Splitter Client ClientSpec.

(** *** Updates by id *)

Lemma merge_updates_id t u : t_id (merge_updates t u) = t_id t.
Proof. reflexivity. Qed.

Lemma find_transfer_id ts id t : find_transfer ts id = Some t -> t_id t = id.
Proof.
  unfold find_transfer. intros H. apply List.find_some in H as [_ H].
  now apply String.eqb_eq.
Qed.

Lemma find_transfer_map ts id u :
  find_transfer (map (fun t => if String.eqb (t_id t) id then merge_updates t u else t) ts) id
  = (fun t => merge_updates t u) <$> find_transfer ts id.
Proof.
  unfold find_transfer. induction ts as [|t ts IH]; simpl; [reflexivity|].
  destruct (String.eqb (t_id t) id) eqn:E; simpl.
  - rewrite E. reflexivity.
  - rewrite E. exact IH.
Qed.

Lemma find_transfer_upd ts id u :
  find_transfer (map (upd id u) ts) id
  = (fun t => merge_updates t u) <$> find_transfer ts id.
Proof. apply find_transfer_map. Qed.

Lemma find_transfer_none_map ts id u :
  find_transfer ts id = None -> map (upd id u) ts = ts.
Proof.
  unfold find_transfer, upd. induction ts as [|t ts IH]; simpl; [reflexivity|].
  destruct (String.eqb (t_id t) id) eqn:E; [discriminate|].
  intros H. now rewrite IH.
Qed.

Lemma transfers_upd st id u :
  transfers (updateTransfer st id u) = map (upd id u) (transfers st).
Proof. unfold updateTransfer. destruct (upd_status u); reflexivity. Qed.

(** *** Clearing the list *)

(** What [clearCompletedTransfers] keeps: everything that is not
    [completed], and the [completed] transfers of the other direction. *)
Lemma clearCompletedTransfers_keeps st type t :
  In t (transfers (clearCompletedTransfers st type))
  <-> In t (transfers st)
      /\ (t_status t <> completed
          \/ exists ty, type = Some ty /\ t_type t <> ty).
Proof.
  unfold clearCompletedTransfers. simpl. rewrite List.filter_In.
  split; intros [Hin H]; (split; [exact Hin|]).
  - destruct (t_status t) eqn:Es; try (left; discriminate).
    destruct type as [ty|]; [|discriminate]. right. exists ty. split; [reflexivity|].
    destruct (t_type t), ty; simpl in H; congruence.
  - destruct H as [H | (ty & -> & H)].
    + destruct (t_status t); try reflexivity. contradiction.
    + destruct (t_status t); try reflexivity.
      destruct (t_type t), ty; simpl; congruence.
Qed.

(** C8.  With a completed, a failed and a running upload in the list, the
    clear operation (for uploads, or for both directions) removes the
    completed one only: the transfer in [error] status stays. *)
Theorem clear_keeps_failed_transfers :
  t_status failed_upload = error
  /\ transfers (clearCompletedTransfers panel_state (Some upload))
     = [failed_upload; running_upload]
  /\ transfers (clearCompletedTransfers panel_state None)
     = [failed_upload; running_upload].
Proof. repeat split. Qed.

(** *** Cancelling *)

(** What cancelling does to the list, whatever the transfer. *)
Lemma cancelTransfer_removes st id :
  find_transfer (transfers (cancelTransfer st id)) id = None.
Proof.
  unfold cancelTransfer. simpl.
  assert (H : forall ts, find_transfer
                 (List.filter (fun t => negb (String.eqb (t_id t) id)) ts) id = None).
  { induction ts as [|t ts IH]; simpl; [reflexivity|].
    destruct (String.eqb (t_id t) id) eqn:E; simpl; [exact IH|].
    unfold find_transfer. simpl. rewrite E. exact IH. }
  destruct (find_transfer (transfers st) id) as [t|]; [destruct (t_abortController t)|];
    apply H.
Qed.

(** A transfer that is not in the list is not brought back: the handler
    leaves the state alone and sends nothing (it only polls again, up to
    its fifth retry count), and a chunk request that settles afterwards,
    either way, leaves the list alone. *)
Lemma removed_transfer_stays_removed st id chunkIndex retryCount :
  find_transfer (transfers st) id = None ->
  fst (processUploadChunk st id chunkIndex retryCount) = st
  /\ (snd (processUploadChunk st id chunkIndex retryCount) = Idle
      \/ snd (processUploadChunk st id chunkIndex retryCount)
         = Later 100%Q id chunkIndex (retryCount + 1))
  /\ forall transfer controller outcome now,
       t_id transfer = id ->
       transfers (fst (chunk_settled st transfer controller chunkIndex retryCount
                                     outcome now))
       = transfers st.
Proof.
  intros Hnone. unfold processUploadChunk. rewrite Hnone.
  split; [destruct (retryCount <? 5); reflexivity|].
  split; [destruct (retryCount <? 5); auto|].
  intros transfer controller outcome now Hid. unfold chunk_settled. rewrite Hid.
  destruct outcome; [|destruct (retryCount <? 10)]; simpl;
    rewrite ?transfers_upd; simpl;
    try apply find_transfer_none_map; auto.
Qed.

(** Cancelling a transfer that carries no controller aborts nothing and
    settles no request. *)
Lemma cancel_without_controller st id t :
  find_transfer (transfers st) id = Some t ->
  t_abortController t = None ->
  aborted (cancelTransfer st id) = aborted st
  /\ calls (cancelTransfer st id) = calls st.
Proof.
  intros Hf Hc. unfold cancelTransfer. rewrite Hf, Hc. split; reflexivity.
Qed.

(** No upload carries one: [uploadFile] and [uploadFiles] build the transfer
    without it, and no update sets it. *)
Lemma uploads_carry_no_controller transferId uploadId file status parentId u :
  t_abortController (new_upload transferId uploadId file status parentId) = None
  /\ forall t, t_abortController (merge_updates t u) = t_abortController t.
Proof. split; reflexivity. Qed.

(** C6.  The upload has a chunk request in flight, issued with the signal of
    controller 0, and the transfer itself carries no controller.
    Cancelling removes the transfer from the list but aborts nothing: the
    request is still in flight and its signal is not aborted.  Cancelling a
    download, whose controller is kept in the transfer, does abort its
    request. *)
Theorem cancel_leaves_upload_request_running :
  calls uploading_state = [mkCall "t1" (Some 0%nat)]
  /\ (t_abortController <$> find_transfer (transfers uploading_state) "t1") = Some None
  /\ transfers (cancelTransfer uploading_state "t1") = []
  /\ calls (cancelTransfer uploading_state "t1") = [mkCall "t1" (Some 0%nat)]
  /\ call_aborted (cancelTransfer uploading_state "t1") (mkCall "t1" (Some 0%nat)) = false
  /\ calls downloading_state = [mkCall "d1" (Some 0%nat)]
  /\ call_aborted (cancelTransfer downloading_state "d1") (mkCall "d1" (Some 0%nat)) = true.
Proof. vm_compute. repeat split. Qed.

(** *** A chunk that fails every time *)

Example retry_delays :
  (retry_delay 0 == 1000)%Q /\ (retry_delay 1 == 1500)%Q /\ (retry_delay 2 == 2250)%Q
  /\ (retry_delay 8 == 25628.90625)%Q /\ (retry_delay 9 == 30000)%Q.
Proof. vm_compute. repeat split; discriminate. Qed.

Lemma failing_trace_length chunkIndex rc n :
  length (failing_trace chunkIndex rc n) = S n.
Proof. revert rc. induction n as [|n IH]; intros rc; simpl; [reflexivity | now rewrite IH]. Qed.

(** In any state where the transfer is being processed and the ordinal is
    one of its chunks, the loop around a request that always fails makes
    one request per retry count from [rc] to 10 and then sets the transfer,
    and no other, to [error]. *)
Lemma failing_chunk_loop_from now id chunkIndex (n : nat) :
  forall fuel st rc u t f,
    rc = 10 - Z.of_nat n -> (n < fuel)%nat ->
    user st = Some u ->
    find_transfer (transfers st) id = Some t ->
    t_status t = processing ->
    t_file t = Some f ->
    chunkIndex < default 0 (t_totalChunks t) ->
    exists st',
      failing_chunk_loop fuel now st id chunkIndex rc
      = (st', failing_trace chunkIndex rc n, true)
      /\ only_failed id (transfers st) (transfers st').
Proof.
  induction n as [|n IH]; intros fuel st rc u t f Hrc Hfuel Hu Hf Hs Hfile Hci;
    (destruct fuel as [|fuel]; [lia|]);
    pose proof (find_transfer_id _ _ _ Hf) as Hid;
    simpl failing_chunk_loop; unfold processUploadChunk;
    rewrite Hf, Hfile, Hu, Hs; simpl status_eqb; simpl negb; cbv iota;
    (destruct (Z.leb_spec (default 0 (t_totalChunks t)) chunkIndex); [lia|]);
    simpl; unfold chunk_settled; rewrite Hid.
  - destruct (Z.ltb_spec rc 10); [lia|]. eexists. split; [reflexivity|].
    unfold only_failed. rewrite transfers_upd. reflexivity.
  - destruct (Z.ltb_spec rc 10); [|lia].
    match goal with
    | |- context [failing_chunk_loop fuel now ?st2 id chunkIndex (rc + 1)] =>
        destruct (IH fuel st2 (rc + 1) u t f) as (st' & Heq & Honly);
          [lia | lia | exact Hu | exact Hf | exact Hs | exact Hfile | exact Hci |]
    end.
    rewrite Heq. eexists. split; [reflexivity | exact Honly].
Qed.

Lemma failing_trace_ordinal chunkIndex rc n :
  Forall (fun a => fst (fst a) = chunkIndex) (failing_trace chunkIndex rc n).
Proof. revert rc. induction n as [|n IH]; intros rc; simpl; repeat constructor. apply IH. Qed.

(** From a first request with retry count 0 that makes eleven requests, all
    for the same ordinal, in every such state. *)
Lemma failing_chunk_makes_eleven_requests now fuel st id chunkIndex u t f :
  (10 < fuel)%nat ->
  user st = Some u ->
  find_transfer (transfers st) id = Some t ->
  t_status t = processing ->
  t_file t = Some f ->
  chunkIndex < default 0 (t_totalChunks t) ->
  exists st' requests,
    failing_chunk_loop fuel now st id chunkIndex 0 = (st', requests, true)
    /\ length requests = 11%nat
    /\ Forall (fun a => fst (fst a) = chunkIndex) requests
    /\ only_failed id (transfers st) (transfers st').
Proof.
  intros Hfuel Hu Hf Hs Hfile Hci.
  destruct (failing_chunk_loop_from now id chunkIndex 10 fuel st 0 u t f)
    as (st' & Heq & Honly); try assumption; [reflexivity|].
  exists st', (failing_trace chunkIndex 0 10). split; [exact Heq|].
  split; [apply failing_trace_length|]. split; [apply failing_trace_ordinal | exact Honly].
Qed.

(** C5.  With two uploads being processed and every request for chunk 0 of
    the first failing: the chunk is requested eleven times, with retry counts
    0 to 10, always for the same ordinal and with the delay
    [min (1000 * 1.5 ^ retryCount, 30000)] before each retry; only the
    eleventh failure sets the transfer to [error], and the other transfer is
    untouched. *)
Theorem failing_chunk_is_requested_eleven_times :
  exists st',
    failing_chunk_loop 20 50 two_uploads_state "t1" 0 0
    = (st',
       [(0, 0, Some (retry_delay 0)); (0, 1, Some (retry_delay 1));
        (0, 2, Some (retry_delay 2)); (0, 3, Some (retry_delay 3));
        (0, 4, Some (retry_delay 4)); (0, 5, Some (retry_delay 5));
        (0, 6, Some (retry_delay 6)); (0, 7, Some (retry_delay 7));
        (0, 8, Some (retry_delay 8)); (0, 9, Some (retry_delay 9));
        (0, 10, None)],
       true)
    /\ map t_status (transfers two_uploads_state) = [processing; processing]
    /\ map t_status (transfers st') = [error; processing]
    /\ only_failed "t1" (transfers two_uploads_state) (transfers st')
    /\ find_transfer (transfers st') "t2" = find_transfer (transfers two_uploads_state) "t2".
Proof. eexists. split; [vm_compute; reflexivity|]. vm_compute. repeat split. Qed.

(** *** A file of no bytes *)

(** The completion request for a declared chunk count of zero is answered
    400 in every state of the server, which it leaves as it is. *)
Lemma zero_chunks_is_bad_request fuel env sst userId body :
  body_totalChunks body = 0 ->
  Server.upload_complete fuel env sst (to_request userId body)
  = Some (Server.BadRequest, sst).
Proof.
  intros H0. unfold Server.upload_complete, to_request. cbn [Server.c_totalChunks].
  rewrite H0. simpl truthy. now rewrite !orb_true_r.
Qed.

(** C9.  A transfer being processed whose file has no bytes, with the chunk
    count computed when it was enqueued: that count is 0; the first run of
    the handler posts no chunk but the completion request, declaring 0
    chunks, and sets the transfer to [merging]; the server answers 400
    whatever its state and registers nothing; the client reads that answer
    as a failed merge, and any answer but a success sets the transfer to
    [error]. *)
Theorem empty_file_never_completes st transferId transfer file userId :
  user st = Some userId ->
  find_transfer (transfers st) transferId = Some transfer ->
  t_status transfer = processing ->
  t_file transfer = Some file ->
  file_size (file_data file) = 0 ->
  t_totalChunks transfer = Some (totalChunks CHUNK_SIZE (file_data file)) ->
  transferStatusRef st !! transferId = Some processing ->
  transferId ∉ mergingRefs st ->
  totalChunks CHUNK_SIZE (file_data file) = 0
  /\ exists st1 body,
       processUploadChunk st transferId 0 0 = (st1, PostComplete body)
       /\ body_totalChunks body = 0
       /\ body_size body = 0
       /\ (t_status <$> find_transfer (transfers st1) transferId) = Some merging
       /\ (forall fuel env sst,
             Server.upload_complete fuel env sst (to_request userId body)
             = Some (Server.BadRequest, sst))
       /\ Server.status_code Server.BadRequest = 400
       /\ outcome_of Server.BadRequest = CompleteStatus 400
       /\ (t_status <$>
             find_transfer
               (transfers (complete_settled st1 transfer (outcome_of Server.BadRequest)))
               transferId)
          = Some error
       /\ (forall outcome, outcome <> CompleteOk ->
             (t_status <$> find_transfer (transfers (complete_settled st1 transfer outcome))
                                         transferId)
             = Some error).
Proof.
  intros Hu Hfind Hst Hfile Hsize Htotal Href Hm.
  assert (H0 : totalChunks CHUNK_SIZE (file_data file) = 0).
  { unfold totalChunks. rewrite Hsize. reflexivity. }
  split; [exact H0|].
  pose proof (find_transfer_id _ _ _ Hfind) as Hid.
  unfold processUploadChunk. rewrite Hfind, Hfile, Hu, Hst. simpl status_eqb. simpl negb.
  cbv iota. rewrite Htotal, H0. simpl default. simpl (0 <=? 0). cbv iota.
  rewrite Href. rewrite bool_decide_eq_false_2 by exact Hm.
  eexists _, _. split; [reflexivity|].
  split; [reflexivity|]. split; [exact Hsize|].
  split.
  { simpl. rewrite find_transfer_map, Hfind. reflexivity. }
  split; [intros; now apply zero_chunks_is_bad_request|].
  split; [reflexivity|]. split; [reflexivity|].
  assert (Hend : forall outcome, outcome <> CompleteOk ->
            (t_status <$>
               find_transfer
                 (transfers
                    (complete_settled
                       (set_calls
                          (updateTransfer
                             (set_mergingRefs st ({[transferId]} ∪ mergingRefs st))
                             transferId
                             (mkUpdates (Some merging) (Some 100) None None None None None))
                          (calls st ++ [mkCall transferId None]))
                       transfer outcome))
                 transferId)
            = Some error).
  { intros outcome Hne. unfold complete_settled. rewrite Hid.
    destruct outcome; [contradiction| | |]; simpl;
      rewrite !find_transfer_map, Hfind; reflexivity. }
  split; [apply Hend; discriminate | exact Hend].
Qed.

(** The empty file of a mixed batch, once promoted. *)
Lemma empty_file_never_completes_witness :
  totalChunks CHUNK_SIZE (file_data empty_file) = 0
  /\ exists st1 body,
       processUploadChunk mixed_state "t1" 0 0 = (st1, PostComplete body)
       /\ body_totalChunks body = 0
       /\ body_size body = 0
       /\ (t_status <$> find_transfer (transfers st1) "t1") = Some merging
       /\ (forall fuel env sst,
             Server.upload_complete fuel env sst (to_request "u" body)
             = Some (Server.BadRequest, sst))
       /\ Server.status_code Server.BadRequest = 400
       /\ outcome_of Server.BadRequest = CompleteStatus 400
       /\ (t_status <$>
             find_transfer
               (transfers
                  (complete_settled st1
                     (mkTransfer "t1" "empty.txt" upload 0 processing 0 0
                                 (Some empty_file) (Some "up1") (Some 0) (Some 0)
                                 None (Some "root") (Some 10) None)
                     (outcome_of Server.BadRequest)))
               "t1")
          = Some error
       /\ (forall outcome, outcome <> CompleteOk ->
             (t_status <$>
                find_transfer
                  (transfers
                     (complete_settled st1
                        (mkTransfer "t1" "empty.txt" upload 0 processing 0 0
                                    (Some empty_file) (Some "up1") (Some 0) (Some 0)
                                    None (Some "root") (Some 10) None)
                        outcome))
                  "t1")
             = Some error).
Proof.
  apply (empty_file_never_completes mixed_state "t1"
           (mkTransfer "t1" "empty.txt" upload 0 processing 0 0
                       (Some empty_file) (Some "up1") (Some 0) (Some 0)
                       None (Some "root") (Some 10) None)
           empty_file "u").
  - reflexivity.
  - vm_compute. reflexivity.
  - reflexivity.
  - reflexivity.
  - reflexivity.
  - vm_compute. reflexivity.
  - vm_compute. reflexivity.
  - vm_compute. intros H. discriminate H.
Defined.

(** Offered alone through [uploadFile], an empty file is not enqueued: the
    quota route answers 400 to a [fileSize] of 0, which the client reads as
    a refusal. *)
Example empty_file_alone_is_refused :
  Server.check_quota ServerSpec.fresh_owner_state (Server.mkQuotaReq (Some "u") (JNum 0))
  = Server.BadRequest
  /\ uploadFile (initial (Some "u"))
       (Some (Server.check_quota ServerSpec.fresh_owner_state
                (Server.mkQuotaReq (Some "u") (JNum (file_size (file_data empty_file))))))
       "t1" "up1" empty_file None
     = (initial (Some "u"), Idle).
Proof. split; reflexivity. Qed.

(** *** The chunks on the wire *)

(** When every chunk request succeeds, the forms posted from ordinal [ci] on
    carry the chunks the splitter cuts from there, and the handler then posts
    the completion body with the chunk count and the size of the file. *)
Lemma succeeding_loop_from now id (n : nat) :
  forall fuel st ci u t f,
    Z.of_nat n = default 0 (t_totalChunks t) - ci -> (n < fuel)%nat -> 0 <= ci ->
    user st = Some u ->
    find_transfer (transfers st) id = Some t ->
    t_status t = processing ->
    t_file t = Some f ->
    transferStatusRef st !! id = Some processing ->
    id ∉ mergingRefs st ->
    exists st' forms body,
      succeeding_loop fuel now st id ci = (st', forms, Some body)
      /\ map form_chunk forms = chunks_from CHUNK_SIZE (file_data f) ci n
      /\ body_totalChunks body = default 0 (t_totalChunks t)
      /\ body_size body = file_size (file_data f).
Proof.
  induction n as [|n IH]; intros fuel st ci u t f Hn Hfuel Hci Hu Hf Hs Hfile Href Hm;
    (destruct fuel as [|fuel]; [lia|]);
    pose proof (find_transfer_id _ _ _ Hf) as Hid;
    simpl succeeding_loop; unfold processUploadChunk;
    rewrite Hf, Hfile, Hu, Hs; simpl status_eqb; simpl negb; cbv iota.
  - destruct (Z.leb_spec (default 0 (t_totalChunks t)) ci); [|lia].
    rewrite Href, bool_decide_eq_false_2 by exact Hm.
    eexists _, [], _. repeat split.
  - destruct (Z.leb_spec (default 0 (t_totalChunks t)) ci); [lia|].
    simpl. unfold chunk_settled. rewrite Hid.
    match goal with
    | |- context [succeeding_loop fuel now ?x id (ci + 1)] => set (st2 := x)
    end.
    assert (Hf2 : exists t', find_transfer (transfers st2) id = Some t'
                             /\ t_status t' = processing /\ t_file t' = Some f
                             /\ t_totalChunks t' = t_totalChunks t).
    { subst st2. rewrite transfers_upd. simpl transfers.
      rewrite find_transfer_upd, Hf. eexists. split; [reflexivity|].
      simpl. auto. }
    destruct Hf2 as (t' & Hf' & Hs' & Hfile' & Htot').
    destruct (IH fuel st2 (ci + 1) u t' f)
      as (st' & forms & body & Heq & Hforms & Htot & Hsize);
      [rewrite Htot'; lia | lia | lia | exact Hu | exact Hf' | exact Hs' | exact Hfile'
       | exact Href | exact Hm |].
    rewrite Heq. eexists _, _, _. split; [reflexivity|].
    split; [simpl; now rewrite Hforms|]. split; [now rewrite <- Htot' | assumption].
Qed.

(** An upload as [uploadFiles] enqueued it, once promoted: the chunks posted
    are those of the splitter for the chunk size of the client, and together
    they are the bytes of the file. *)
Lemma upload_sends_the_file now fuel st id u t f :
  user st = Some u ->
  find_transfer (transfers st) id = Some t ->
  t_status t = processing ->
  t_file t = Some f ->
  t_totalChunks t = Some (totalChunks CHUNK_SIZE (file_data f)) ->
  transferStatusRef st !! id = Some processing ->
  id ∉ mergingRefs st ->
  (Z.to_nat (totalChunks CHUNK_SIZE (file_data f)) < fuel)%nat ->
  exists st' forms body,
    succeeding_loop fuel now st id 0 = (st', forms, Some body)
    /\ map form_chunk forms = split CHUNK_SIZE (file_data f)
    /\ concat (map form_chunk forms) = file_data f
    /\ body_totalChunks body = totalChunks CHUNK_SIZE (file_data f)
    /\ body_size body = file_size (file_data f).
Proof.
  intros Hu Hf Hs Hfile Htot Href Hm Hfuel.
  assert (H0 : 0 <= totalChunks CHUNK_SIZE (file_data f)).
  { apply SplitterProps.ceil_div_nonneg; [reflexivity | unfold file_size; lia]. }
  destruct (succeeding_loop_from now id (Z.to_nat (totalChunks CHUNK_SIZE (file_data f)))
              fuel st 0 u t f) as (st' & forms & body & Heq & Hforms & Hb & Hsz);
    try assumption; [rewrite Htot; simpl; lia | lia |].
  exists st', forms, body. split; [exact Heq|]. split; [exact Hforms|].
  split; [rewrite Hforms; apply SplitterProps.concat_split; reflexivity|].
  split; [rewrite Hb, Htot; reflexivity | exact Hsz].
Qed.

(** *** The admission bound *)

(** C4, as stated, fails: [uploadFile] and [downloadFile] take in each
    transfer in [processing] status, whatever the number already active, so
    six single uploads, or six downloads, are active at once. *)
Lemma direct_admissions_exceed_limit :
  map t_status (transfers six_singles)
  = [processing; processing; processing; processing; processing; processing]
  /\ activeCount (transfers six_singles) = 6
  /\ map t_status (transfers six_downloads)
     = [processing; processing; processing; processing; processing; processing]
  /\ activeCount (transfers six_downloads) = 6
  /\ MAX_CONCURRENT_UPLOADS = 5.
Proof. vm_compute. repeat split. Qed.

Lemma ids_upd id u ts : map t_id (map (upd id u) ts) = map t_id ts.
Proof.
  induction ts as [|t ts IH]; simpl; [reflexivity|]. rewrite IH. f_equal.
  unfold upd. now destruct (String.eqb (t_id t) id).
Qed.

Lemma activeCount_cons t ts :
  activeCount (t :: ts) = (if is_active t then 1 else 0) + activeCount ts.
Proof. unfold activeCount. simpl. destruct (is_active t); simpl; lia. Qed.

Lemma activeCount_app a b : activeCount (a ++ b) = activeCount a + activeCount b.
Proof.
  induction a as [|t a IH]; simpl; [unfold activeCount; simpl; lia|].
  rewrite !activeCount_cons, IH. lia.
Qed.

Lemma activeCount_nonneg ts : 0 <= activeCount ts.
Proof. unfold activeCount. lia. Qed.

(** An update that sets no status, or a status that is not active, does
    not raise the count. *)
Lemma activeCount_upd_inactive id u ts :
  (forall s, upd_status u = Some s -> inactive s = true) ->
  activeCount (map (upd id u) ts) <= activeCount ts.
Proof.
  intros Hu. induction ts as [|t ts IH]; simpl; [lia|].
  rewrite !activeCount_cons. unfold upd at 1.
  destruct (String.eqb (t_id t) id); [|lia].
  assert (is_active (merge_updates t u) = true -> is_active t = true).
  { unfold is_active. simpl. destruct (upd_status u) as [s|] eqn:E; simpl; [|auto].
    specialize (Hu s eq_refl). unfold inactive in Hu.
    destruct (status_eqb s processing || status_eqb s merging); [discriminate|].
    discriminate. }
  destruct (is_active (merge_updates t u)), (is_active t); lia.
Qed.

Lemma upd_absent id u ts : ~ In id (map t_id ts) -> map (upd id u) ts = ts.
Proof.
  induction ts as [|t ts IH]; simpl; [reflexivity|]. intros Hn.
  rewrite IH by tauto. unfold upd.
  destruct (String.eqb_spec (t_id t) id); [tauto | reflexivity].
Qed.

(** With distinct ids an update touches one transfer, so the count goes up
    by one at most. *)
Lemma activeCount_upd_le id u ts :
  List.NoDup (map t_id ts) -> activeCount (map (upd id u) ts) <= activeCount ts + 1.
Proof.
  induction ts as [|t ts IH]; simpl; intros Hnd; [unfold activeCount; simpl; lia|].
  apply List.NoDup_cons_iff in Hnd as [Hnin Hnd]. rewrite !activeCount_cons.
  unfold upd at 1. destruct (String.eqb_spec (t_id t) id) as [E|E].
  - subst id. rewrite upd_absent by exact Hnin.
    destruct (is_active (merge_updates t u)), (is_active t); lia.
  - specialize (IH Hnd). lia.
Qed.

(** With distinct ids, an update of a transfer that is already active does
    not raise the count. *)
Lemma activeCount_upd_active id u ts t :
  List.NoDup (map t_id ts) -> find_transfer ts id = Some t -> is_active t = true ->
  activeCount (map (upd id u) ts) <= activeCount ts.
Proof.
  induction ts as [|h ts IH]; simpl; intros Hnd Hf Ha; [discriminate|].
  apply List.NoDup_cons_iff in Hnd as [Hnin Hnd]. rewrite !activeCount_cons.
  unfold find_transfer in Hf. simpl in Hf. unfold upd at 1.
  destruct (String.eqb_spec (t_id h) id) as [E|E].
  - injection Hf as ->. subst id. rewrite upd_absent by exact Hnin.
    rewrite Ha. destruct (is_active (merge_updates t u)); lia.
  - specialize (IH Hnd Hf Ha). lia.
Qed.

Lemma activeCount_filter p ts : activeCount (List.filter p ts) <= activeCount ts.
Proof.
  induction ts as [|t ts IH]; simpl; [lia|].
  destruct (p t); rewrite ?activeCount_cons; destruct (is_active t); lia.
Qed.

Lemma ids_filter_NoDup (p : TransferItem -> bool) ts :
  List.NoDup (map t_id ts) -> List.NoDup (map t_id (List.filter p ts)).
Proof.
  induction ts as [|t ts IH]; simpl; intros Hnd; [constructor|].
  apply List.NoDup_cons_iff in Hnd as [Hnin Hnd].
  destruct (p t); simpl; [|auto]. constructor; [|auto].
  intros Hin. apply Hnin. apply List.in_map_iff in Hin as (x & Hx & Hin).
  apply List.in_map_iff. exists x. split; [exact Hx|].
  apply List.filter_In in Hin. tauto.
Qed.

(** The transfers [uploadFiles] adds come after those already listed and
    are all [pending]. *)
Lemma uploadFiles_appends st answer ids items :
  exists newTransfers,
    transfers (uploadFiles st answer ids items) = transfers st ++ newTransfers
    /\ Forall (fun t => t_status t = pending) newTransfers.
Proof.
  unfold uploadFiles.
  destruct (user st); [|exists []; rewrite app_nil_r; split; [reflexivity | constructor]].
  destruct items as [|item items];
    [exists []; rewrite app_nil_r; split; [reflexivity | constructor]|].
  destruct (checkQuota answer); simpl;
    [|exists []; rewrite app_nil_r; split; [reflexivity | constructor]].
  eexists. split; [reflexivity|].
  generalize (item :: items) as l. clear. intros l. revert l.
  induction ids as [|[tid uid] ids IH]; intros [|[f p] l]; simpl; constructor;
    [reflexivity | apply IH].
Qed.

Lemma activeCount_pending ts :
  Forall (fun t => t_status t = pending) ts -> activeCount ts = 0.
Proof.
  induction 1 as [|t ts Ht _ IH]; [reflexivity|].
  rewrite activeCount_cons, IH. unfold is_active. rewrite Ht. reflexivity.
Qed.

(** The handler changes the list in one way only: it sets a transfer it
    found in [processing] status to [merging]. *)
Lemma processUploadChunk_transfers st id chunkIndex retryCount :
  transfers (fst (processUploadChunk st id chunkIndex retryCount)) = transfers st
  \/ exists t u,
       find_transfer (transfers st) id = Some t /\ t_status t = processing
       /\ transfers (fst (processUploadChunk st id chunkIndex retryCount))
          = map (upd id u) (transfers st).
Proof.
  unfold processUploadChunk.
  destruct (find_transfer (transfers st) id) as [t|] eqn:Hf;
    [|destruct (retryCount <? 5); left; reflexivity].
  destruct (t_file t) as [f|]; [|left; reflexivity].
  destruct (user st) as [uid|]; [|left; reflexivity].
  destruct (t_status t) eqn:Hs; simpl; try (left; reflexivity).
  destruct (default 0 (t_totalChunks t) <=? chunkIndex); [|left; reflexivity].
  destruct (transferStatusRef st !! id) as [[]|];
    try (left; reflexivity);
    (destruct (bool_decide (id ∈ mergingRefs st)); [left; reflexivity|];
     right; eexists t, _; split; [reflexivity|]; split; [exact Hs|];
     simpl; reflexivity).
Qed.

Lemma batch_move_inv st st' : queue_inv st -> batch_move st st' -> queue_inv st'.
Proof.
  intros [Hc Hnd] Hmove. unfold queue_inv.
  destruct Hmove as [st answer ids items Hfresh | st now | st id ci rc
                    | st t c ci rc outcome now | st t outcome | st id | st type | st].
  - split; [|exact Hfresh].
    destruct (uploadFiles_appends st answer ids items) as (new & -> & Hp).
    rewrite activeCount_app, (activeCount_pending _ Hp). lia.
  - unfold queue_effect.
    destruct (Z.ltb_spec (activeCount (transfers st)) MAX_CONCURRENT_UPLOADS);
      [|split; assumption].
    destruct (List.find _ (transfers st)) as [next|]; [|split; assumption].
    simpl fst. rewrite transfers_upd, ids_upd. split; [|exact Hnd].
    pose proof (activeCount_upd_le (t_id next)
                  (mkUpdates (Some processing) None None None None (Some now) None)
                  _ Hnd). lia.
  - destruct (processUploadChunk_transfers st id ci rc)
      as [-> | (t & u & Hf & Hs & ->)]; [split; assumption|].
    rewrite ids_upd. split; [|exact Hnd].
    assert (Ha : is_active t = true) by (unfold is_active; now rewrite Hs).
    pose proof (activeCount_upd_active id u _ t Hnd Hf Ha). lia.
  - unfold chunk_settled. destruct outcome; [|destruct (rc <? 10)]; simpl fst;
      rewrite ?transfers_upd, ?ids_upd; simpl transfers; (split; [|exact Hnd]);
      try exact Hc.
    + etransitivity; [apply activeCount_upd_inactive|exact Hc]. simpl. discriminate.
    + etransitivity; [apply activeCount_upd_inactive|exact Hc].
      simpl. intros s [= <-]. reflexivity.
  - unfold complete_settled. simpl transfers.
    destruct outcome; rewrite transfers_upd, ids_upd; simpl transfers;
      (split; [|exact Hnd]);
      (etransitivity; [apply activeCount_upd_inactive|exact Hc]);
      simpl; intros s [= <-]; reflexivity.
  - unfold cancelTransfer. simpl transfers.
    assert (Ht : forall x, transfers
                   (match find_transfer (transfers st) id with
                    | Some transfer => match t_abortController transfer with
                                       | Some c => abort st c
                                       | None => st
                                       end
                    | None => st
                    end) = x -> x = transfers st).
    { intros x <-. destruct (find_transfer (transfers st) id) as [t|];
        [destruct (t_abortController t)|]; reflexivity. }
    rewrite (Ht _ eq_refl). split.
    + etransitivity; [apply activeCount_filter | exact Hc].
    + now apply ids_filter_NoDup.
  - unfold clearCompletedTransfers. simpl transfers. split.
    + etransitivity; [apply activeCount_filter | exact Hc].
    + now apply ids_filter_NoDup.
  - split; assumption.
Qed.

Lemma batch_reachable_inv st : batch_reachable st -> queue_inv st.
Proof.
  induction 1 as [u | st st' _ IH Hmove].
  - split; [vm_compute; discriminate | constructor].
  - exact (batch_move_inv st st' IH Hmove).
Qed.

(** C4 (amended).  In every state reached while transfers are taken in
    through [uploadFiles] only, at most five transfers hold [processing] or
    [merging] status; the transfers [uploadFiles] takes in are appended in
    [pending] status; the queue effect, when fewer than five transfers are
    active, promotes the first [pending] transfer of the list, and otherwise
    promotes none; a download is appended in [processing] status, without
    passing through the queue. *)
Theorem batch_queue_respects_limit st :
  batch_reachable st ->
  activeCount (transfers st) <= MAX_CONCURRENT_UPLOADS
  /\ MAX_CONCURRENT_UPLOADS = 5
  /\ (forall answer ids items,
        exists newTransfers,
          transfers (uploadFiles st answer ids items) = transfers st ++ newTransfers
          /\ Forall (fun t => t_status t = pending) newTransfers)
  /\ (forall now before t after,
        transfers st = before ++ t :: after ->
        t_status t = pending ->
        Forall (fun x => t_status x <> pending) before ->
        queue_effect now st
        = if activeCount (transfers st) <? MAX_CONCURRENT_UPLOADS
          then (updateTransfer st (t_id t)
                  (mkUpdates (Some processing) None None None None (Some now) None),
                Later 100%Q (t_id t) 0 0)
          else (st, Idle))
  /\ (forall u transferId fileName isFolder,
        user st = Some u ->
        exists item,
          transfers (downloadFile st transferId fileName isFolder) = transfers st ++ [item]
          /\ t_type item = download /\ t_status item = processing).
Proof.
  intros Hr. split; [exact (proj1 (batch_reachable_inv st Hr))|].
  split; [reflexivity|]. split; [intros; apply uploadFiles_appends|].
  split; [|intros u transferId fileName isFolder Hu; unfold downloadFile; rewrite Hu;
           eexists; simpl; repeat split].
  intros now before t after Hts Hp Hbefore. unfold queue_effect.
  destruct (activeCount (transfers st) <? MAX_CONCURRENT_UPLOADS); [|reflexivity].
  rewrite Hts.
  assert (Hfind : List.find (fun x => status_eqb (t_status x) pending) (before ++ t :: after)
                  = Some t).
  { clear Hts. induction Hbefore as [|x before Hx _ IH]; simpl.
    - now rewrite Hp.
    - destruct (t_status x); try exact IH. contradiction. }
  rewrite Hfind. reflexivity.
Qed.

Lemma four_of_seven_reachable : batch_reachable four_of_seven.
Proof.
  unfold four_of_seven, seven_enqueued.
  do 4 (eapply reach_move; [|apply move_queue_effect]).
  eapply reach_move; [apply reach_initial|].
  apply move_enqueue. vm_compute.
  repeat (constructor; [simpl; intuition discriminate|]).
  constructor.
Qed.

Lemma five_of_seven_reachable : batch_reachable five_of_seven.
Proof.
  unfold five_of_seven.
  eapply reach_move; [apply four_of_seven_reachable | apply move_queue_effect].
Qed.

(** Seven files enqueued together.  After four runs of the queue effect
    four transfers are active and the fifth run promotes the first pending
    one, [t5]; after it five are active, [t6] and [t7] are pending, and a
    further run promotes none. *)
Lemma batch_queue_respects_limit_witness :
  (map t_status (transfers five_of_seven)
   = [processing; processing; processing; processing; processing; pending; pending]
   /\ activeCount (transfers five_of_seven) = 5
   /\ activeCount (transfers five_of_seven) <= MAX_CONCURRENT_UPLOADS
   /\ queue_effect 15 five_of_seven = (five_of_seven, Idle))
  /\ (activeCount (transfers four_of_seven) = 4
      /\ queue_effect 14 four_of_seven
         = (updateTransfer four_of_seven "t5"
              (mkUpdates (Some processing) None None None None (Some 14) None),
            Later 100%Q "t5" 0 0)).
Proof.
  split.
  - destruct (batch_queue_respects_limit five_of_seven five_of_seven_reachable)
      as (Hbound & _ & _ & Hfifo & _).
    split; [vm_compute; reflexivity|]. split; [vm_compute; reflexivity|].
    split; [exact Hbound|].
    exact (Hfifo 15
             (firstn 5 (transfers five_of_seven)) (transfer_of five_of_seven "t6")
             [transfer_of five_of_seven "t7"]
             ltac:(vm_compute; reflexivity) ltac:(vm_compute; reflexivity)
             ltac:(vm_compute; repeat constructor; discriminate)).
  - destruct (batch_queue_respects_limit four_of_seven four_of_seven_reachable)
      as (_ & _ & _ & Hfifo & _).
    split; [vm_compute; reflexivity|].
    exact (Hfifo 14
             (firstn 4 (transfers four_of_seven)) (transfer_of four_of_seven "t5")
             [transfer_of four_of_seven "t6"; transfer_of four_of_seven "t7"]
             ltac:(vm_compute; reflexivity) ltac:(vm_compute; reflexivity)
             ltac:(vm_compute; repeat constructor; discriminate)).
Defined.

End ClientProps.

(* ===================================================================== *)
(** ** Properties of the other server routes *)
(* ===================================================================== *)

Module RoutesProps.
Import Js Server ServerSpec Routes RoutesSpec.

Lemma truthy_str_some (s : string) : s <> "" -> truthy_str (Some s) = true.
Proof.
  intros Hs. simpl. destruct (String.eqb_spec s ""); [contradiction | reflexivity].
Qed.

(** *** The chunk receiver *)







(** *** The commit *)

Lemma current_usage_app fs gs userId :
  current_usage (fs ++ gs) userId = current_usage fs userId + current_usage gs userId.
Proof.
  unfold current_usage. rewrite List.filter_app, map_app.
  induction (map f_size (List.filter _ fs)) as [|x l IH]; simpl; [reflexivity | lia].
Qed.

Lemma current_usage_single f userId :
  current_usage [f] userId
  = if String.eqb (f_user_id f) userId && String.eqb (f_type f) "file" then f_size f else 0.
Proof.
  unfold current_usage. simpl.
  destruct (String.eqb (f_user_id f) userId && String.eqb (f_type f) "file"); simpl; lia.
Qed.





(** A chunk count that is truthy and no number, for a name under which
    nothing is stored: the answer is 500, no row is inserted, and an empty
    file is left at the path. *)
Example commit_without_rounds_fails :
  upload_complete 8 (mkEnv "id" 2) fresh_owner_state
    (mkCompleteReq (Some "u") (Some "s") (Some "a.bin") (Some "root")
                   (JStr "abc") (Some "text/plain") JUndefined)
  = Some (MergeFailed,
          mkState (users fresh_owner_state) [] ∅ {[ "uploads/u/a.bin" := [] ]}).
Proof. vm_compute. reflexivity. Qed.



(** *** The legacy upload *)



(** *** Folders *)

Lemma find_snoc {A} (p : A -> bool) (l : list A) (x : A) :
  List.find p (l ++ [x])
  = match List.find p l with
    | Some y => Some y
    | None => if p x then Some x else None
    end.
Proof.
  induction l as [|a l IH]; simpl; [reflexivity|]. destruct (p a); [reflexivity | exact IH].
Qed.

Lemma is_same_refl a : is_same a a = true.
Proof. destruct a; simpl; [apply String.eqb_refl | reflexivity]. Qed.

Lemma create_folder_usage fuel env st req r st' userId :
  create_folder fuel env st req = Some (r, st') ->
  current_usage (files st') userId = current_usage (files st) userId.
Proof.
  unfold create_folder. destruct (_ || _); [now intros [= <- <-]|].
  destruct (find_folder _ _ _ _); [now intros [= <- <-]|].
  destruct (getPhysicalPath _ _ _ _); [|discriminate]. intros [= <- <-]. simpl.
  rewrite current_usage_app, current_usage_single. simpl.
  rewrite andb_false_r. lia.
Qed.

(** X6.  Creating a folder is idempotent.  Once a request has been answered
    with a folder, the same request, at any later time and with any fresh
    id drawn, is answered with that same folder and leaves the catalog as it
    is; and creating a folder never changes anyone's consumption. *)
Theorem create_folder_idempotent fuel env st req e st1 :
  create_folder fuel env st req = Some (Entry e, st1) ->
  (forall fuel' env', create_folder fuel' env' st1 req = Some (Entry e, st1))
  /\ (forall userId, current_usage (files st1) userId = current_usage (files st) userId)
  /\ (files st1 = files st \/ exists row, files st1 = files st ++ [row] /\ f_id row = f_id e).
Proof.
  intros H. split; [|split; [intros; eapply create_folder_usage; exact H|]];
    revert H; unfold create_folder;
    (destruct (_ || _) eqn:Hg; [discriminate|]);
    destruct (find_folder (files st) _ _ _) as [old|] eqn:Hold.
  - intros [= <- <-] fuel' env'. rewrite Hold. reflexivity.
  - destruct (getPhysicalPath _ _ _ _) as [parentPath|]; [|discriminate].
    intros [= <- <-] fuel' env'. simpl files. unfold find_folder in *.
    rewrite find_snoc, Hold. simpl.
    rewrite !String.eqb_refl, is_same_refl. reflexivity.
  - intros [= <- <-]. left. reflexivity.
  - destruct (getPhysicalPath _ _ _ _) as [parentPath|]; [|discriminate].
    intros [= <- <-]. right. eexists. split; reflexivity.
Qed.

(** A folder [docs] created at the root of an owner who has none. *)
Lemma create_folder_idempotent_witness :
  (forall fuel' env',
      create_folder fuel' env'
        (set_files fresh_owner_state
           [mkFile "id" "u" None "docs" "folder" 0 (Some "uploads/u/docs") None 2])
        docs_req
      = Some (Entry (folder_entry "id" "u" None "docs" 2),
              set_files fresh_owner_state
                [mkFile "id" "u" None "docs" "folder" 0 (Some "uploads/u/docs") None 2]))
  /\ (forall userId,
        current_usage
          (files (set_files fresh_owner_state
                    [mkFile "id" "u" None "docs" "folder" 0 (Some "uploads/u/docs") None 2]))
          userId
        = current_usage (files fresh_owner_state) userId)
  /\ (files (set_files fresh_owner_state
               [mkFile "id" "u" None "docs" "folder" 0 (Some "uploads/u/docs") None 2])
      = files fresh_owner_state
      \/ exists row,
          files (set_files fresh_owner_state
                   [mkFile "id" "u" None "docs" "folder" 0 (Some "uploads/u/docs") None 2])
          = files fresh_owner_state ++ [row]
          /\ f_id row = f_id (folder_entry "id" "u" None "docs" 2)).
Proof.
  apply (create_folder_idempotent 8 (mkEnv "id" 2) fresh_owner_state docs_req).
  reflexivity.
Defined.

(** *** Deletion *)

Lemma find_none_intro {A} (p : A -> bool) (l : list A) :
  (forall x, In x l -> p x = false) -> List.find p l = None.
Proof.
  induction l as [|a l IH]; simpl; intros H; [reflexivity|].
  rewrite (H a) by auto. apply IH. intros x Hx. apply H. auto.
Qed.

Lemma find_owned_none fs id userId :
  (forall f, In f fs -> f_id f = id -> f_user_id f <> userId) ->
  find_owned fs id (Some userId) = None.
Proof.
  intros H. simpl. apply find_none_intro. intros f Hin.
  destruct (String.eqb_spec (f_id f) id) as [E|]; [|reflexivity].
  destruct (String.eqb_spec (f_user_id f) userId) as [E'|]; [|reflexivity].
  exfalso. exact (H f Hin E E').
Qed.

(** X7.  Deleting is reserved to the owner: a request without a user id, or
    from a user who owns no row with that id, is answered 404 and changes
    neither the catalog nor the disk. *)
Theorem delete_node_refuses_strangers fuel st id user :
  (forall userId f, user = Some userId -> In f (files st) -> f_id f = id ->
                    f_user_id f <> userId) ->
  delete_node fuel st id user = Some (Failure 404, st).
Proof.
  intros H. unfold delete_node. destruct user as [userId|]; [|reflexivity].
  rewrite find_owned_none; [reflexivity|]. intros f Hin Hid. exact (H userId f eq_refl Hin Hid).
Qed.

(** User [v] asks to delete a file of user [u]. *)
Lemma delete_node_refuses_strangers_witness :
  delete_node 8 two_users_state "f1" (Some "v") = Some (Failure 404, two_users_state).
Proof.
  apply (delete_node_refuses_strangers 8 two_users_state "f1" (Some "v")).
  intros userId f [= <-] Hin Hid. simpl in Hin.
  destruct Hin as [<- | [<- | [<- | []]]]; discriminate.
Defined.

Lemma delete_row_usage fs id file userId :
  distinct_ids fs -> In file fs -> f_id file = id ->
  current_usage (delete_row fs id) userId
  = current_usage fs userId
    - (if String.eqb (f_user_id file) userId && String.eqb (f_type file) "file"
       then f_size file else 0).
Proof.
  unfold distinct_ids, delete_row. intros Hnd Hin Hid.
  induction fs as [|f fs IH]; [contradiction|].
  simpl in Hnd. apply List.NoDup_cons_iff in Hnd as [Hnin Hnd].
  change (f :: fs) with ([f] ++ fs). rewrite current_usage_app, current_usage_single.
  simpl List.filter. destruct Hin as [-> | Hin].
  - rewrite Hid, String.eqb_refl. simpl.
    assert (Hsame : List.filter (fun g => negb (String.eqb (f_id g) id)) fs = fs).
    { clear -Hnin Hid. rewrite Hid in Hnin.
      induction fs as [|g fs IH]; simpl; [reflexivity|].
      destruct (String.eqb_spec (f_id g) id) as [E|E]; simpl.
      - exfalso. apply Hnin. left. exact E.
      - rewrite IH; [reflexivity|]. intros H. apply Hnin. right. exact H. }
    rewrite Hsame. lia.
  - destruct (String.eqb_spec (f_id f) id) as [E|E]; simpl.
    + exfalso. apply Hnin. rewrite E, <- Hid. now apply List.in_map.
    + change (f :: List.filter (fun g => negb (String.eqb (f_id g) id)) fs)
        with ([f] ++ List.filter (fun g => negb (String.eqb (f_id g) id)) fs).
      rewrite current_usage_app, current_usage_single, (IH Hnd Hin). lia.
Qed.

(** X8.  When the owner deletes a file of a catalog with distinct ids, the
    answer is a success, the row with that id is gone and every other row
    stays, in order; the physical file at its path is gone; and the owner's
    consumption drops by exactly the size of the row. *)
Theorem delete_node_frees_space fuel st id userId file :
  distinct_ids (files st) ->
  In file (files st) -> f_id file = id -> f_user_id file = userId ->
  f_type file = "file" ->
  exists st',
    delete_node fuel st id (Some userId) = Some (Success, st')
    /\ files st' = List.filter (fun f => negb (String.eqb (f_id f) id)) (files st)
    /\ find_file (files st') id = None
    /\ (forall p, f_path file = Some p -> p <> "" -> disk st' !! p = None)
    /\ current_usage (files st') userId = current_usage (files st) userId - f_size file.
Proof.
  intros Hnd Hin Hid Howner Htype. unfold delete_node.
  assert (Hfind : find_owned (files st) id (Some userId) = Some file).
  { simpl. clear -Hnd Hin Hid Howner. unfold distinct_ids in Hnd.
    induction (files st) as [|f fs IH]; [contradiction|].
    simpl in Hnd. apply List.NoDup_cons_iff in Hnd as [Hnin Hnd]. simpl.
    destruct Hin as [-> | Hin].
    - now rewrite Hid, Howner, !String.eqb_refl.
    - destruct (String.eqb_spec (f_id f) id) as [E|E]; simpl; [|auto].
      exfalso. apply Hnin. rewrite E, <- Hid. now apply List.in_map. }
  rewrite Hfind, Htype. simpl.
  eexists. split; [reflexivity|]. simpl. split; [reflexivity|]. split.
  - unfold find_file, delete_row. apply find_none_intro. intros f Hf.
    apply List.filter_In in Hf as [_ Hf]. now apply negb_true_iff in Hf.
  - split.
    + intros p Hp Hne. rewrite Hp. simpl.
      destruct (String.eqb_spec p ""); [contradiction|]. simpl. apply lookup_delete_eq.
    + rewrite (delete_row_usage _ _ file userId Hnd Hin Hid), Howner, Htype.
      rewrite !String.eqb_refl. reflexivity.
Qed.

(** User [u] deletes the file of three bytes. *)
Lemma delete_node_frees_space_witness :
  exists st',
    delete_node 8 two_users_state "f1" (Some "u") = Some (Success, st')
    /\ files st' = List.filter (fun f => negb (String.eqb (f_id f) "f1")) (files two_users_state)
    /\ find_file (files st') "f1" = None
    /\ (forall p,
          f_path (mkFile "f1" "u" None "a.bin" "file" 3 (Some "uploads/u/a.bin") None 1)
          = Some p -> p <> "" -> disk st' !! p = None)
    /\ current_usage (files st') "u"
       = current_usage (files two_users_state) "u"
         - f_size (mkFile "f1" "u" None "a.bin" "file" 3 (Some "uploads/u/a.bin") None 1).
Proof.
  apply (delete_node_frees_space 8 two_users_state "f1" "u"
           (mkFile "f1" "u" None "a.bin" "file" 3 (Some "uploads/u/a.bin") None 1)).
  - unfold distinct_ids. simpl. repeat constructor; simpl; intuition discriminate.
  - simpl. auto.
  - reflexivity.
  - reflexivity.
  - reflexivity.
Defined.

(** *** Sharing *)

Lemma find_share_some shares fileId userId :
  shared_with shares fileId userId <-> exists s, find_share shares fileId userId = Some s.
Proof.
  unfold shared_with, share_pairs, find_share. induction shares as [|s shares IH]; simpl.
  - split; [contradiction | intros [s H]; discriminate].
  - destruct (String.eqb_spec (s_file_id s) fileId) as [E1|E1];
      destruct (String.eqb_spec (s_to_user_id s) userId) as [E2|E2]; simpl;
      try (rewrite <- IH; split; [intros [H|H]; [congruence | exact H] | auto]).
    split; [eauto | intros _; left; congruence].
Qed.

Lemma find_share_none shares fileId userId :
  ~ shared_with shares fileId userId -> find_share shares fileId userId = None.
Proof.
  intros H. destruct (find_share shares fileId userId) eqn:E; [|reflexivity].
  exfalso. apply H. apply find_share_some. eauto.
Qed.

Lemma share_pairs_app a b : share_pairs (a ++ b) = share_pairs a ++ share_pairs b.
Proof. apply map_app. Qed.

(** What the loop over the recipients does to the table. *)
Lemma share_with_spec uuid now from fileId userIds :
  forall shares k,
    List.NoDup (share_pairs shares) ->
    List.NoDup (share_pairs (fst (share_with uuid now from fileId userIds (shares, k))))
    /\ (forall f u, shared_with (fst (share_with uuid now from fileId userIds (shares, k))) f u
                    <-> shared_with shares f u \/ (f = fileId /\ In u userIds)).
Proof.
  induction userIds as [|to rest IH]; intros shares k Hnd; simpl.
  - split; [exact Hnd|]. intros f u. tauto.
  - destruct (find_share shares fileId to) as [s|] eqn:E.
    + destruct (IH shares k Hnd) as [H1 H2]. split; [exact H1|].
      intros f u. rewrite H2.
      assert (shared_with shares fileId to) by (apply find_share_some; eauto).
      split; [tauto|]. intros [H'|[-> [<-|H']]]; auto.
    + assert (Hnew : ~ shared_with shares fileId to).
      { intros H. apply find_share_some in H as [s H]. congruence. }
      assert (Hnd' : List.NoDup
                       (share_pairs (shares ++ [mkShare (uuid k) fileId from to now]))).
      { rewrite share_pairs_app. simpl. apply List.NoDup_app.
        - exact Hnd.
        - repeat constructor. simpl. tauto.
        - intros x Hx [<-|[]]. exact (Hnew Hx). }
      destruct (IH _ (S k) Hnd') as [H1 H2]. split; [exact H1|].
      intros f u. rewrite H2. unfold shared_with. rewrite share_pairs_app, List.in_app_iff.
      simpl. split.
      * intros [[H'|[[= <- <-]|[]]]|[-> H']]; auto.
      * intros [H'|[-> [<-|H']]]; auto.
Qed.

Lemma share_all_spec uuid now from fileIds userIds :
  forall shares k,
    List.NoDup (share_pairs shares) ->
    List.NoDup (share_pairs (fst (share_all uuid now from fileIds userIds (shares, k))))
    /\ (forall f u, shared_with (fst (share_all uuid now from fileIds userIds (shares, k))) f u
                    <-> shared_with shares f u \/ (In f fileIds /\ In u userIds)).
Proof.
  induction fileIds as [|fileId rest IH]; intros shares k Hnd; simpl.
  - split; [exact Hnd|]. intros f u. tauto.
  - destruct (share_with uuid now from fileId userIds (shares, k)) as [shares1 k1] eqn:E.
    pose proof (share_with_spec uuid now from fileId userIds shares k Hnd) as [H1 H2].
    rewrite E in H1, H2. simpl in H1, H2.
    destruct (IH shares1 k1 H1) as [H3 H4]. split; [exact H3|].
    intros f u. rewrite H4, H2. split.
    + intros [[H|[-> H]]|[H H']]; auto.
    + intros [H|[[<-|H] H']]; auto.
Qed.

(** X9.  The share table never holds two rows for the same file and
    recipient: a share request that is accepted keeps the pairs distinct,
    adds a row for exactly the listed pairs that were missing, and removes
    none. *)
Theorem share_keeps_pairs_distinct uuid now shares from fileIds userIds :
  List.NoDup (share_pairs shares) ->
  from <> "" ->
  fst (share uuid now shares (Some from) (Some fileIds) (Some userIds)) = Success
  /\ List.NoDup
       (share_pairs (snd (share uuid now shares (Some from) (Some fileIds) (Some userIds))))
  /\ (forall f u,
        shared_with (snd (share uuid now shares (Some from) (Some fileIds) (Some userIds))) f u
        <-> shared_with shares f u \/ (In f fileIds /\ In u userIds)).
Proof.
  intros Hnd Hne. unfold share. rewrite truthy_str_some by assumption. simpl.
  split; [reflexivity|]. apply share_all_spec. exact Hnd.
Qed.

(** Two files shared with two users, starting from an empty table. *)
Lemma share_keeps_pairs_distinct_witness :
  fst (share uuid_n 5 [] (Some "u") (Some ["f1"; "f2"]) (Some ["v"; "w"])) = Success
  /\ List.NoDup
       (share_pairs (snd (share uuid_n 5 [] (Some "u") (Some ["f1"; "f2"]) (Some ["v"; "w"]))))
  /\ (forall f u,
        shared_with (snd (share uuid_n 5 [] (Some "u") (Some ["f1"; "f2"]) (Some ["v"; "w"])))
                    f u
        <-> shared_with [] f u \/ (In f ["f1"; "f2"] /\ In u ["v"; "w"])).
Proof.
  apply (share_keeps_pairs_distinct uuid_n 5 [] "u" ["f1"; "f2"] ["v"; "w"]).
  - constructor.
  - discriminate.
Defined.

(** X10.  The share route does not look at who owns a file.  After an
    accepted share request, from any sender, every listed recipient is sent
    every listed file that is in the catalog, is not a folder and is on
    disk. *)
Theorem share_opens_download uuid now st shares from fileIds userIds fid recipient file p bytes :
  List.NoDup (share_pairs shares) ->
  from <> "" ->
  In fid fileIds -> In recipient userIds -> recipient <> "" ->
  find_file (files st) fid = Some file ->
  f_type file <> "folder" ->
  f_path file = Some p -> p <> "" -> disk st !! p = Some bytes ->
  download st (snd (share uuid now shares (Some from) (Some fileIds) (Some userIds)))
           fid (Some recipient) None
  = Download (f_name file) bytes.
Proof.
  intros Hnd Hfrom Hid Hrec Hrne Hfile Htype Hp Hpne Hdisk.
  assert (Hsh : snd (share uuid now shares (Some from) (Some fileIds) (Some userIds))
                = fst (share_all uuid now from fileIds userIds (shares, O))).
  { unfold share. rewrite truthy_str_some by assumption. reflexivity. }
  destruct (share_all_spec uuid now from fileIds userIds shares O Hnd) as [_ Hiff].
  assert (Hs : shared_with (snd (share uuid now shares (Some from) (Some fileIds)
                                       (Some userIds))) fid recipient)
    by (rewrite Hsh; apply Hiff; auto).
  clear Hsh.
  apply find_share_some in Hs as [s Hs].
  revert Hs. generalize (snd (share uuid now shares (Some from) (Some fileIds) (Some userIds))).
  clear Hiff. intros sh Hs.
  unfold download. rewrite (truthy_str_some recipient) by assumption. cbv iota.
  rewrite (truthy_str_some recipient) by assumption.
  cbn [negb default from_option]. unfold id.
  rewrite Hfile. destruct (String.eqb_spec (f_type file) "folder"); [contradiction|].
  rewrite Hs, orb_true_r. cbn [negb].
  rewrite Hp, truthy_str_some by assumption. cbn [default from_option]. unfold id.
  rewrite Hdisk. reflexivity.
Qed.

(** User [v], who owns nothing, shares a file of [u] with itself and
    downloads it. *)
Lemma share_opens_download_witness :
  download two_users_state (snd (share uuid_n 5 [] (Some "v") (Some ["f1"]) (Some ["v"])))
           "f1" (Some "v") None
  = Download (f_name (mkFile "f1" "u" None "a.bin" "file" 3 (Some "uploads/u/a.bin") None 1))
             [x01; x02; x03].
Proof.
  apply (share_opens_download uuid_n 5 two_users_state [] "v" ["f1"] ["v"] "f1" "v"
           (mkFile "f1" "u" None "a.bin" "file" 3 (Some "uploads/u/a.bin") None 1)
           "uploads/u/a.bin" [x01; x02; x03]).
  - constructor.
  - discriminate.
  - simpl. auto.
  - simpl. auto.
  - discriminate.
  - reflexivity.
  - discriminate.
  - reflexivity.
  - discriminate.
  - reflexivity.
Defined.

(** X11.  Without a share a file is sent to its owner only, and clearing
    takes the shares back: once a user has cleared the files shared with it,
    a download of a file of the catalog that it does not own is answered
    403 (400 for a folder), while the shares of every other user are
    kept. *)
Theorem clear_shared_closes_download st shares userId fid file :
  userId <> "" ->
  find_file (files st) fid = Some file ->
  f_user_id file <> userId ->
  fst (clear_shared shares (Some userId)) = Success
  /\ download st (snd (clear_shared shares (Some userId))) fid (Some userId) None
     = (if String.eqb (f_type file) "folder" then Failure 400 else Failure 403)
  /\ (forall f u, u <> userId ->
        find_share (snd (clear_shared shares (Some userId))) f u = find_share shares f u).
Proof.
  intros Hne Hfile Howner. unfold clear_shared. rewrite truthy_str_some by assumption.
  simpl negb. cbv iota. simpl fst. simpl snd. split; [reflexivity|].
  cbn [default from_option]. unfold id. split.
  - unfold download. rewrite (truthy_str_some userId) by assumption. cbv iota.
    rewrite (truthy_str_some userId) by assumption.
    cbn [negb default from_option]. unfold id.
    rewrite Hfile. destruct (String.eqb (f_type file) "folder"); [reflexivity|].
    destruct (String.eqb_spec (f_user_id file) userId); [contradiction|].
    rewrite find_share_none; [reflexivity|].
    unfold shared_with, share_pairs. rewrite List.in_map_iff.
    intros (s & [= _ Hto] & Hin). apply List.filter_In in Hin as [_ Hin].
    rewrite Hto, String.eqb_refl in Hin. discriminate.
  - intros f u Hu. unfold find_share. induction shares as [|s shares IH]; simpl; [reflexivity|].
    destruct (String.eqb_spec (s_to_user_id s) userId) as [E|E]; simpl.
    + rewrite IH. destruct (String.eqb_spec (s_to_user_id s) u) as [E'|E']; [congruence|].
      now rewrite andb_false_r.
    + rewrite IH. reflexivity.
Qed.

(** User [v] clears its shares and asks for a file of [u]. *)
Lemma clear_shared_closes_download_witness :
  fst (clear_shared (snd (share uuid_n 5 [] (Some "u") (Some ["f1"]) (Some ["v"; "w"])))
                    (Some "v")) = Success
  /\ download two_users_state
       (snd (clear_shared (snd (share uuid_n 5 [] (Some "u") (Some ["f1"]) (Some ["v"; "w"])))
                          (Some "v")))
       "f1" (Some "v") None
     = (if String.eqb
             (f_type (mkFile "f1" "u" None "a.bin" "file" 3 (Some "uploads/u/a.bin") None 1))
             "folder"
        then Failure 400 else Failure 403)
  /\ (forall f u, u <> "v" ->
        find_share
          (snd (clear_shared
                  (snd (share uuid_n 5 [] (Some "u") (Some ["f1"]) (Some ["v"; "w"])))
                  (Some "v"))) f u
        = find_share (snd (share uuid_n 5 [] (Some "u") (Some ["f1"]) (Some ["v"; "w"]))) f u).
Proof.
  apply (clear_shared_closes_download two_users_state
           (snd (share uuid_n 5 [] (Some "u") (Some ["f1"]) (Some ["v"; "w"]))) "v" "f1"
           (mkFile "f1" "u" None "a.bin" "file" 3 (Some "uploads/u/a.bin") None 1)).
  - discriminate.
  - reflexivity.
  - discriminate.
Defined.


(** *** The user list *)

(** X12.  The usage the admin list shows for a user is the usage the quota
    checks count, as long as every row is a file or a folder: the list sums
    the rows that are not folders, the checks sum the rows that are
    files. *)
Theorem listed_usage_is_quota_usage fs userId :
  typed_rows fs -> usage_of fs userId = current_usage fs userId.
Proof.
  unfold typed_rows, usage_of, current_usage. induction 1 as [|f fs Hf _ IH]; [reflexivity|].
  simpl. destruct (String.eqb (f_user_id f) userId); simpl; [|exact IH].
  destruct Hf as [-> | ->]; simpl; rewrite IH; reflexivity.
Qed.

Lemma listed_usage_is_quota_usage_witness :
  usage_of (files two_users_state) "u" = current_usage (files two_users_state) "u".
Proof.
  apply (listed_usage_is_quota_usage (files two_users_state) "u").
  unfold typed_rows. simpl.
  constructor; [left; reflexivity|].
  constructor; [right; reflexivity|].
  constructor; [left; reflexivity|].
  constructor.
Defined.

(** *** Folder access *)

Lemma find_file_in fs c file : find_file fs c = Some file -> In c (map f_id fs).
Proof.
  unfold find_file. intros H. apply List.find_some in H as [Hin Heq].
  apply String.eqb_eq in Heq. subst c. apply List.in_map. exact Hin.
Qed.

Lemma existsb_eqb_false c visited :
  existsb (String.eqb c) visited = false -> ~ In c visited.
Proof.
  intros H Hin. assert (existsb (String.eqb c) visited = true); [|congruence].
  apply List.existsb_exists. exists c. split; [exact Hin | apply String.eqb_refl].
Qed.

Lemma existsb_eqb_intro c visited :
  ~ In c visited -> existsb (String.eqb c) visited = false.
Proof.
  intros H. destruct (existsb (String.eqb c) visited) eqn:E; [|reflexivity].
  apply List.existsb_exists in E as (x & Hin & Heq). apply String.eqb_eq in Heq.
  subst x. contradiction.
Qed.

(** Each round closes one more id of the table, so the walk ends. *)
Lemma checkFolderAccess_from_returns fs shares userId :
  forall fuel visited curr,
    List.NoDup visited -> incl visited (map f_id fs) ->
    (length fs < fuel + length visited)%nat ->
    exists b, checkFolderAccess_from fuel fs shares userId visited curr = Some b.
Proof.
  induction fuel as [|fuel IH]; intros visited curr Hnd Hincl Hlen.
  - exfalso. apply List.NoDup_incl_length in Hincl; [|exact Hnd].
    rewrite List.length_map in Hincl. lia.
  - simpl. destruct curr as [c|]; [|eauto].
    destruct (String.eqb c "" || existsb (String.eqb c) visited) eqn:Eg; [eauto|].
    apply orb_false_iff in Eg as [_ Ev]. apply existsb_eqb_false in Ev.
    destruct (find_file fs c) as [file|] eqn:Ef; [|eauto].
    destruct (String.eqb (f_user_id file) userId); [eauto|].
    destruct (find_share shares c userId); [eauto|].
    apply IH.
    + constructor; assumption.
    + intros x [<-|Hx]; [exact (find_file_in _ _ _ Ef) | exact (Hincl x Hx)].
    + simpl. lia.
Qed.

(** X13.  The access walk always ends and the browse route always answers,
    whatever the parent links are, also when they form a cycle: the walk
    stops at an id it has seen. *)
Theorem browse_always_answers st shares folderId user :
  exists r, browse st shares folderId user = Some r.
Proof.
  unfold browse, checkFolderAccess.
  destruct (negb (truthy_str user) || String.eqb folderId ""); [eauto|].
  destruct (checkFolderAccess_from_returns (files st) shares (default "" user)
              (S (S (length (files st)))) [] (Some folderId)) as [b Hb].
  - constructor.
  - intros x [].
  - simpl. lia.
  - rewrite Hb. destruct b; eauto.
Qed.

Lemma checkFolderAccess_sound fs shares userId :
  forall fuel visited c,
    checkFolderAccess_from fuel fs shares userId visited (Some c) = Some true ->
    grants fs shares userId visited c.
Proof.
  induction fuel as [|fuel IH]; intros visited c H; [discriminate|].
  simpl in H.
  destruct (String.eqb c "" || existsb (String.eqb c) visited) eqn:Eg; [discriminate|].
  apply orb_false_iff in Eg as [Ec Ev]. apply existsb_eqb_false in Ev.
  apply String.eqb_neq in Ec.
  destruct (find_file fs c) as [file|] eqn:Ef; [|discriminate].
  destruct (String.eqb_spec (f_user_id file) userId) as [Eo|Eo].
  { eapply grants_here; eauto. }
  destruct (find_share shares c userId) as [s|] eqn:Es.
  { eapply grants_here; eauto. right. apply find_share_some. eauto. }
  destruct (f_parent_id file) as [p|] eqn:Ep.
  - eapply grants_up; eauto.
    intros Hs. apply find_share_some in Hs as [s Hs]. congruence.
  - destruct fuel; discriminate.
Qed.

Lemma checkFolderAccess_complete fs shares userId visited c :
  grants fs shares userId visited c ->
  forall fuel b,
    checkFolderAccess_from fuel fs shares userId visited (Some c) = Some b -> b = true.
Proof.
  induction 1 as [visited c file Hc Hv Hf Hacc | visited c file p Hc Hv Hf Ho Hs Hp _ IH];
    intros [|fuel] b H; try discriminate; simpl in H;
    apply String.eqb_neq in Hc; rewrite Hc, (existsb_eqb_intro _ _ Hv), Hf in H; simpl in H.
  - destruct (String.eqb_spec (f_user_id file) userId) as [Eo|Eo]; [congruence|].
    destruct Hacc as [Hacc|Hacc]; [contradiction|].
    apply find_share_some in Hacc as [s Hacc]. rewrite Hacc in H. congruence.
  - destruct (String.eqb_spec (f_user_id file) userId) as [Eo|Eo]; [contradiction|].
    rewrite (find_share_none _ _ _ Hs), Hp in H. exact (IH _ _ H).
Qed.

Lemma grants_fresh fs shares userId visited c :
  grants fs shares userId visited c -> ~ In c visited.
Proof. destruct 1; assumption. Qed.

(** Closing one more id, a row that grants nothing and whose parent is
    closed or is the start of the walk, does not cut the walk. *)
Lemma grants_close fs shares userId c file p :
  find_file fs c = Some file -> f_user_id file <> userId ->
  ~ shared_with shares c userId -> f_parent_id file = Some p ->
  forall visited q,
    grants fs shares userId visited q ->
    forall visited',
      (forall x, In x visited' <-> x = c \/ In x visited) ->
      In p visited \/ p = q ->
      grants fs shares userId visited' q.
Proof.
  intros Hf Ho Hs Hp visited q H.
  induction H as [visited q fq Hq Hv Hfq Hacc | visited q fq q' Hq Hv Hfq Hoq Hsq Hpq Hg IH];
    intros visited' Hv' Hin.
  - eapply grants_here; eauto. rewrite Hv'. intros [->|H]; [|contradiction].
    rewrite Hf in Hfq. injection Hfq as <-. destruct Hacc; contradiction.
  - assert (Hne : q <> c).
    { intros ->. rewrite Hf in Hfq. injection Hfq as <-.
      rewrite Hp in Hpq. injection Hpq as <-.
      apply grants_fresh in Hg. apply Hg. destruct Hin as [Hin| ->]; simpl; auto. }
    eapply grants_up; eauto.
    + rewrite Hv'. intros [H|H]; contradiction.
    + apply IH.
      * intros x. simpl. rewrite Hv'. tauto.
      * destruct Hin as [Hin| ->]; simpl; auto.
Qed.

(** X14.  Access to a folder extends to its subfolders: a user the walk
    accepts at a folder is accepted at every row that names this folder as
    its parent, whatever else the parent links are. *)
Theorem folder_access_is_inherited fs shares userId c file p :
  c <> "" ->
  find_file fs c = Some file ->
  f_parent_id file = Some p ->
  checkFolderAccess fs shares p userId = Some true ->
  checkFolderAccess fs shares c userId = Some true.
Proof.
  intros Hc Hf Hp Hacc. unfold checkFolderAccess in *.
  apply checkFolderAccess_sound in Hacc.
  destruct (checkFolderAccess_from_returns fs shares userId (S (S (length fs))) []
              (Some c)) as [b Hb].
  { constructor. }
  { intros x []. }
  { simpl. lia. }
  rewrite Hb. f_equal. apply (checkFolderAccess_complete fs shares userId [] c) in Hb;
    [exact Hb|].
  destruct (String.eqb_spec (f_user_id file) userId) as [Eo|Eo].
  { eapply grants_here; eauto. }
  destruct (find_share shares c userId) as [s|] eqn:Es.
  { eapply grants_here; eauto. right. apply find_share_some. eauto. }
  assert (Hs : ~ shared_with shares c userId).
  { intros H. apply find_share_some in H as [s H]. congruence. }
  eapply grants_up; eauto.
  eapply (grants_close fs shares userId c file p Hf Eo Hs Hp [] p Hacc).
  - intros x. simpl. split; [intros [<-|[]]; auto | intros [->|[]]; auto].
  - right. reflexivity.
Qed.

(** The subfolder of a folder that [u] has shared with [v]. *)
Lemma folder_access_is_inherited_witness :
  checkFolderAccess (files nested_state)
    (snd (share uuid_n 5 [] (Some "u") (Some ["d1"]) (Some ["v"]))) "d2" "v" = Some true.
Proof.
  apply (folder_access_is_inherited (files nested_state)
           (snd (share uuid_n 5 [] (Some "u") (Some ["d1"]) (Some ["v"]))) "v" "d2"
           (mkFile "d2" "u" (Some "d1") "sub" "folder" 0 (Some "uploads/u/docs/sub") None 1)
           "d1").
  - discriminate.
  - reflexivity.
  - reflexivity.
  - vm_compute. reflexivity.
Defined.

(** *** Deleting a folder *)

Lemma closed_removal_refl fs : closed_removal fs fs.
Proof.
  split; [apply incl_refl|]. intros r c Hr Hgone _. exfalso. apply Hgone.
  now apply List.in_map.
Qed.

Lemma closed_removal_trans a b c :
  closed_removal a b -> closed_removal b c -> closed_removal a c.
Proof.
  intros [Hab Hab'] [Hbc Hbc']. split; [eapply incl_tran; eassumption|].
  intros r ch Hr Hgone Hch.
  destruct (List.in_dec string_dec (f_id r) (map f_id b)) as [Hin|Hout].
  - apply List.in_map_iff in Hin as (r' & Hid & Hr'). rewrite <- Hid.
    apply Hbc'; [exact Hr' | rewrite Hid; exact Hgone | exact Hch].
  - apply Hab'; [exact Hr | exact Hout | apply Hbc; exact Hch].
Qed.

Lemma delete_row_in fs x r : In r (delete_row fs x) <-> In r fs /\ f_id r <> x.
Proof.
  unfold delete_row. rewrite List.filter_In, negb_true_iff, String.eqb_neq. reflexivity.
Qed.

Lemma delete_row_gone fs x : ~ In x (map f_id (delete_row fs x)).
Proof.
  intros H. apply List.in_map_iff in H as (r & Hid & Hr).
  apply delete_row_in in Hr as [_ Hne]. contradiction.
Qed.

Lemma closed_removal_delete_row fs x :
  (forall c, In c fs -> f_parent_id c <> Some x) -> closed_removal fs (delete_row fs x).
Proof.
  intros Hno. split.
  - intros r Hr. apply delete_row_in in Hr. tauto.
  - intros r c Hr Hgone Hc.
    destruct (string_dec (f_id r) x) as [->|Hne].
    + apply Hno. apply delete_row_in in Hc. tauto.
    + exfalso. apply Hgone. apply List.in_map. apply delete_row_in. auto.
Qed.

Lemma files_are_leaves_incl fs fs' :
  incl fs' fs -> files_are_leaves fs -> files_are_leaves fs'.
Proof. intros Hincl H r c Hr Hc. apply H; apply Hincl; assumption. Qed.

Lemma children_of_in fs x c :
  In c (children_of fs x) <-> In c fs /\ f_parent_id c = Some x.
Proof.
  unfold children_of. rewrite List.filter_In. unfold is_same.
  destruct (f_parent_id c) as [p|]; [rewrite String.eqb_eq|]; split; intros [H H'];
    split; congruence.
Qed.

Lemma fold_left_none {A B} (step : option A -> B -> option A) (l : list B) :
  (forall b, step None b = None) -> fold_left step l None = None.
Proof. intros H. induction l as [|b l IH]; simpl; [reflexivity | now rewrite H]. Qed.

(** What the recursive deletion leaves. *)
Lemma deleteDbFolderRecursively_spec :
  forall fuel fs x fs',
    files_are_leaves fs ->
    deleteDbFolderRecursively fuel fs x = Some fs' ->
    closed_removal fs fs'
    /\ (forall c, In c fs' -> f_parent_id c <> Some x)
    /\ ~ In x (map f_id fs').
Proof.
  induction fuel as [|fuel IH]; intros fs x fs' Hleaves H; [discriminate|].
  simpl in H.
  match type of H with
  | match fold_left ?step _ _ with _ => _ end = _ => set (step_ := step) in H
  end.
  assert (Hloop : forall l cur cur',
             (forall c, In c l -> In c fs) -> incl cur fs ->
             fold_left step_ l (Some cur) = Some cur' ->
             closed_removal cur cur'
             /\ forall c, In c l -> ~ In (f_id c) (map f_id cur')).
  { induction l as [|c l IHl]; intros cur cur' Hl Hcur Hfold; cbn [fold_left] in Hfold.
    - injection Hfold as <-. split; [apply closed_removal_refl | contradiction].
    - destruct (step_ (Some cur) c) as [cur2|] eqn:Hs;
        [|rewrite fold_left_none in Hfold; [discriminate | intros b; reflexivity]].
      assert (Hstep : exists cur1,
                 cur2 = delete_row cur1 (f_id c)
                 /\ closed_removal cur cur1
                 /\ forall ch, In ch cur1 -> f_parent_id ch <> Some (f_id c)).
      { unfold step_ in Hs.
        destruct (String.eqb_spec (f_type c) "folder") as [Et|Et].
        - destruct (deleteDbFolderRecursively fuel cur (f_id c)) as [cur1|] eqn:Hd;
            [|discriminate].
          injection Hs as <-.
          destruct (IH cur (f_id c) cur1 (files_are_leaves_incl _ _ Hcur Hleaves) Hd)
            as (Hc1 & Hc2 & _).
          exists cur1. auto.
        - injection Hs as <-. exists cur. split; [reflexivity|].
          split; [apply closed_removal_refl|].
          intros ch Hch. apply Hleaves; [apply Hl; now left | apply Hcur; exact Hch | exact Et]. }
      destruct Hstep as (cur1 & -> & Hc1 & Hno).
      destruct (IHl (delete_row cur1 (f_id c)) cur') as [Hc2 Hgone].
      + intros c' Hc'. apply Hl. now right.
      + intros r Hr. apply delete_row_in in Hr as [Hr _]. apply Hcur, Hc1, Hr.
      + exact Hfold.
      + split.
        * eapply closed_removal_trans; [exact Hc1|].
          eapply closed_removal_trans; [|exact Hc2].
          apply closed_removal_delete_row. exact Hno.
        * intros c' [<-|Hc']; [|apply Hgone; exact Hc'].
          intros Hin. apply List.in_map_iff in Hin as (r & Hid & Hr).
          apply Hc2 in Hr. apply delete_row_in in Hr as [_ Hne]. contradiction. }
  destruct (fold_left step_ (children_of fs x) (Some fs)) as [cur|] eqn:Hfold;
    [|discriminate].
  injection H as <-.
  destruct (Hloop (children_of fs x) fs cur) as [Hc Hgone].
  { intros c Hc. apply children_of_in in Hc. tauto. }
  { apply incl_refl. }
  { exact Hfold. }
  assert (Hno : forall c, In c cur -> f_parent_id c <> Some x).
  { intros c Hin Hp. apply (Hgone c).
    - apply children_of_in. split; [apply Hc; exact Hin | exact Hp].
    - now apply List.in_map. }
  split; [|split].
  - eapply closed_removal_trans; [exact Hc|]. apply closed_removal_delete_row. exact Hno.
  - intros c Hin. apply delete_row_in in Hin as [Hin _]. apply Hno. exact Hin.
  - apply delete_row_gone.
Qed.

Lemma find_owned_some fs x user file :
  find_owned fs x user = Some file -> In file fs /\ f_id file = x.
Proof.
  unfold find_owned. destruct user as [userId|]; [|discriminate]. intros H.
  apply List.find_some in H as [Hin H]. apply andb_true_iff in H as [H _].
  apply String.eqb_eq in H. auto.
Qed.

(** X15.  In a catalog where only folders have children, a deletion that
    succeeds leaves no orphan: rows are only removed, the row asked for is
    gone, and every row that is left and whose parent was in the catalog
    still has its parent there.  Users and chunk directories are
    untouched. *)
Theorem delete_node_leaves_no_orphan fuel st x user st' :
  files_are_leaves (files st) ->
  delete_node fuel st x user = Some (Success, st') ->
  incl (files st') (files st)
  /\ find_file (files st') x = None
  /\ (forall c p, In c (files st') -> f_parent_id c = Some p ->
        In p (map f_id (files st)) -> In p (map f_id (files st')))
  /\ users st' = users st /\ temp st' = temp st.
Proof.
  intros Hleaves. unfold delete_node.
  destruct (find_owned (files st) x user) as [file|] eqn:Hfind; [|discriminate].
  apply find_owned_some in Hfind as [Hfile Hid].
  assert (Hfirst : closed_removal (files st) (delete_row (files st) x)
                   \/ f_type file = "folder").
  { destruct (string_dec (f_type file) "folder") as [Et|Et]; [now right | left].
    apply closed_removal_delete_row. intros c Hc. rewrite <- Hid.
    apply Hleaves; assumption. }
  assert (Hend : forall fs',
             incl fs' (delete_row (files st) x) ->
             (closed_removal (files st) fs'
              \/ (closed_removal (delete_row (files st) x) fs'
                  /\ forall c, In c fs' -> f_parent_id c <> Some x)) ->
             incl fs' (files st)
             /\ find_file fs' x = None
             /\ (forall c p, In c fs' -> f_parent_id c = Some p ->
                   In p (map f_id (files st)) -> In p (map f_id fs'))).
  { intros fs' Hincl Hclosed.
    assert (Hin : incl fs' (files st)).
    { intros r Hr. apply Hincl, delete_row_in in Hr. tauto. }
    split; [exact Hin|]. split.
    - unfold find_file. apply find_none_intro. intros r Hr.
      apply Hincl, delete_row_in in Hr as [_ Hne]. now apply String.eqb_neq.
    - intros c p Hc Hp Hwas.
      destruct (List.in_dec string_dec p (map f_id fs')) as [Hstill|Hgone]; [exact Hstill|].
      exfalso. apply List.in_map_iff in Hwas as (r & <- & Hr).
      destruct Hclosed as [[_ Hcl]|[[_ Hcl] Hno]].
      + exact (Hcl r c Hr Hgone Hc Hp).
      + destruct (string_dec (f_id r) x) as [E|E].
        * rewrite E in Hp. exact (Hno c Hc Hp).
        * apply (Hcl r c); [apply delete_row_in; auto | exact Hgone | exact Hc | exact Hp]. }
  destruct (String.eqb_spec (f_type file) "folder") as [Et|Et].
  - destruct (deleteDbFolderRecursively fuel (delete_row (files st) x) x) as [fs2|] eqn:Hd;
      [|discriminate].
    intros [= <-]. cbn [files users temp].
    destruct (deleteDbFolderRecursively_spec fuel (delete_row (files st) x) x fs2)
      as (Hc & Hno & _);
      [apply (files_are_leaves_incl (files st)); [|exact Hleaves];
       intros r Hr; apply delete_row_in in Hr; tauto
      | exact Hd |].
    destruct (Hend fs2) as (H1 & H2 & H3); [apply Hc | right; auto |]. auto.
  - intros [= <-]. cbn [files users temp].
    destruct Hfirst as [Hcl|]; [|contradiction].
    destruct (Hend (delete_row (files st) x)) as (H1 & H2 & H3);
      [apply incl_refl | left; exact Hcl |]. auto.
Qed.

(** The owner deletes a folder that holds a folder that holds a file. *)
Lemma delete_node_leaves_no_orphan_witness :
  incl (files emptied_state) (files nested_state)
  /\ find_file (files emptied_state) "d1" = None
  /\ (forall c p, In c (files emptied_state) -> f_parent_id c = Some p ->
        In p (map f_id (files nested_state)) -> In p (map f_id (files emptied_state)))
  /\ users emptied_state = users nested_state /\ temp emptied_state = temp nested_state.
Proof.
  apply (delete_node_leaves_no_orphan 8 nested_state "d1" (Some "u") emptied_state).
  - intros r c Hr Hc Ht. simpl in Hr, Hc.
    destruct Hr as [<-|[<-|[<-|[]]]]; try (exfalso; apply Ht; reflexivity);
      destruct Hc as [<-|[<-|[<-|[]]]]; discriminate.
  - vm_compute. reflexivity.
Defined.

End RoutesProps.

(* ===================================================================== *)
(** ** Properties of an upload, from the client to the disk *)
(* ===================================================================== *)

Module UploadProps.
Import Js Splitter Server ServerSpec Client ClientSpec Routes RoutesSpec UploadSpec.















(** *** Stored paths *)






End UploadProps.

(* ===================================================================== *)
(** ** Properties of the client transfers *)
(* ===================================================================== *)

Module TransferProps.
Import Js Splitter Server ServerSpec Client ClientSpec UploadSpec TransferSpec.

Lemma totalSize_from items : forall acc,
  fold_left (fun sum item => sum + file_size (file_data (fst item))) items acc
  = acc + totalSize items.
Proof.
  unfold totalSize. induction items as [|it items IH]; intros acc; simpl; [lia|].
  rewrite IH, (IH (0 + _)). lia.
Qed.

Lemma totalSize_nonneg (items : list (File * option string)) : 0 <= totalSize items.
Proof.
  induction items as [|it items IH]; [unfold totalSize; simpl; lia|].
  unfold totalSize at 1. simpl. rewrite totalSize_from.
  assert (0 <= file_size (file_data (fst it))) by (unfold file_size; lia). lia.
Qed.

Lemma new_uploads_fields (folder : option string) ids :
  forall items : list (File * option string),
    length ids = length items ->
    let new := zip_with
                 (fun '(transferId, uploadId) '(file, parentId) =>
                    new_upload transferId uploadId file pending
                               (parent_or_root parentId folder))
                 ids items in
    map t_file new = map (fun it => Some (fst it)) items
    /\ map t_id new = map fst ids
    /\ map t_uploadId new = map (fun p => Some (snd p)) ids.
Proof.
  induction ids as [|[tid uid] ids IH]; intros [|[f p] items] Hlen; simpl in *;
    try discriminate; [repeat split|].
  destruct (IH items) as (H1 & H2 & H3); [lia|].
  rewrite H1, H2, H3. repeat split.
Qed.

(** X18.  A batch is accepted or refused as a whole, by the answer of the
    quota route to the sum of the sizes.  When the sum is zero, or is more
    than the room the owner has left, no file of the batch is enqueued,
    whatever the size of each; otherwise every file is enqueued, in the
    order given, under the transfer id and the upload id drawn for it. *)
Theorem batch_is_taken_as_a_whole cst sst u usr ids items :
  user cst = Some u -> u <> "" ->
  find_user (users sst) u = Some usr ->
  items <> [] -> length ids = length items ->
  (totalSize items = 0
   \/ u_storage_limit usr - current_usage (files sst) u < totalSize items ->
   uploadFiles cst (Some (check_quota sst (mkQuotaReq (Some u) (JNum (totalSize items)))))
               ids items = cst)
  /\ (totalSize items <> 0 ->
      totalSize items <= u_storage_limit usr - current_usage (files sst) u ->
      exists new,
        transfers (uploadFiles cst
                     (Some (check_quota sst (mkQuotaReq (Some u) (JNum (totalSize items)))))
                     ids items)
        = transfers cst ++ new
        /\ map t_file new = map (fun it => Some (fst it)) items
        /\ map t_id new = map fst ids
        /\ map t_uploadId new = map (fun p => Some (snd p)) ids).
Proof.
  intros Hu Hune Husr Hitems Hlen.
  assert (Hq : totalSize items <> 0 ->
               check_quota sst (mkQuotaReq (Some u) (JNum (totalSize items)))
               = QuotaReport
                   (totalSize items <=? u_storage_limit usr - current_usage (files sst) u)
                   (current_usage (files sst) u) (u_storage_limit usr)
                   (u_storage_limit usr - current_usage (files sst) u) (totalSize items)).
  { intros Hne. unfold check_quota. cbn [q_user q_fileSize].
    rewrite ServerProps.truthy_str_nonempty by assumption.
    simpl truthy. destruct (Z.eqb_spec (totalSize items) 0); [contradiction|]. simpl.
    rewrite Husr. reflexivity. }
  unfold uploadFiles. rewrite Hu. destruct items as [|item items]; [contradiction|].
  split.
  - intros [Hz|Hbig].
    + unfold check_quota. cbn [q_user q_fileSize]. rewrite Hz. simpl truthy.
      rewrite orb_true_r. reflexivity.
    + destruct (Z.eq_dec (totalSize (item :: items)) 0) as [Hz|Hnz].
      * unfold check_quota. cbn [q_user q_fileSize]. rewrite Hz. simpl truthy.
        rewrite orb_true_r. reflexivity.
      * rewrite (Hq Hnz). cbn [checkQuota].
        destruct (Z.leb_spec (totalSize (item :: items))
                    (u_storage_limit usr - current_usage (files sst) u)); [lia|].
        reflexivity.
  - intros Hnz Hfit. rewrite (Hq Hnz). cbn [checkQuota].
    destruct (Z.leb_spec (totalSize (item :: items))
                (u_storage_limit usr - current_usage (files sst) u)); [|lia].
    cbn [negb]. eexists. split; [reflexivity|].
    apply (new_uploads_fields (currentFolderId cst) ids (item :: items) Hlen).
Qed.

(** The witness of the batch theorem: one file of three bytes, an owner
    with a hundred bytes. *)
Lemma batch_is_taken_as_a_whole_witness :
  (totalSize one_file_batch = 0
   \/ u_storage_limit (mkUser "u" 100) - current_usage (files fresh_owner_state) "u"
      < totalSize one_file_batch ->
   uploadFiles (initial (Some "u"))
               (Some (check_quota fresh_owner_state
                        (mkQuotaReq (Some "u") (JNum (totalSize one_file_batch)))))
               one_file_ids one_file_batch = initial (Some "u"))
  /\ (totalSize one_file_batch <> 0 ->
      totalSize one_file_batch
      <= u_storage_limit (mkUser "u" 100) - current_usage (files fresh_owner_state) "u" ->
      exists new,
        transfers (uploadFiles (initial (Some "u"))
                     (Some (check_quota fresh_owner_state
                              (mkQuotaReq (Some "u")
                                          (JNum (totalSize one_file_batch)))))
                     one_file_ids one_file_batch)
        = transfers (initial (Some "u")) ++ new
        /\ map t_file new = map (fun it => Some (fst it)) one_file_batch
        /\ map t_id new = map fst one_file_ids
        /\ map t_uploadId new = map (fun p => Some (snd p)) one_file_ids).
Proof.
  apply (batch_is_taken_as_a_whole (initial (Some "u")) fresh_owner_state "u"
           (mkUser "u" 100) one_file_ids one_file_batch).
  - reflexivity.
  - discriminate.
  - reflexivity.
  - discriminate.
  - reflexivity.
Defined.

(** *** Progress *)

Lemma chunk_start_inside (size i : Z) :
  0 <= size -> 0 <= i < ceil_div size CHUNK_SIZE -> i * CHUNK_SIZE < size.
Proof.
  unfold ceil_div, CHUNK_SIZE. intros Hs Hi.
  pose proof (Z.div_mod (- size) 10485760 ltac:(lia)) as Hdm.
  pose proof (Z.mod_pos_bound (- size) 10485760 ltac:(lia)) as Hb.
  change (10 * 1024 * 1024) with 10485760 in *. lia.
Qed.

Lemma round_div_percent (loaded size : Z) :
  0 < loaded <= size ->
  0 <= round_div (loaded * 100) size <= 100
  /\ (loaded = size -> round_div (loaded * 100) size = 100).
Proof.
  intros H. unfold round_div. split; [split|].
  - apply Z.div_pos; lia.
  - assert ((2 * (loaded * 100) + size) / (2 * size) < 101); [|lia].
    apply Z.div_lt_upper_bound; lia.
  - intros ->. symmetry. apply (Z.div_unique _ _ 100 size); lia.
Qed.

(** X19.  After a chunk request that succeeded the transfer shows the bytes
    sent so far: the end of the chunk, or the size of the file for the last
    one; the count grows with each chunk and never passes the size, the
    percentage stays between 0 and 100 and is 100 after the last chunk; the
    status is untouched and the next ordinal is scheduled with the retry
    count back at 0. *)
Theorem chunk_progress st t t0 f controller ci rc now :
  t_file t = Some f ->
  find_transfer (transfers st) (t_id t) = Some t0 ->
  0 <= ci < totalChunks CHUNK_SIZE (file_data f) ->
  exists t',
    find_transfer (transfers (fst (chunk_settled st t controller ci rc ChunkOk now))) (t_id t)
    = Some t'
    /\ t_chunkIndex t' = Some (ci + 1)
    /\ t_loaded t' = Z.min ((ci + 1) * CHUNK_SIZE) (file_size (file_data f))
    /\ ci * CHUNK_SIZE < t_loaded t' <= file_size (file_data f)
    /\ 0 <= t_progress t' <= 100
    /\ (ci + 1 = totalChunks CHUNK_SIZE (file_data f) ->
        t_loaded t' = file_size (file_data f) /\ t_progress t' = 100)
    /\ t_status t' = t_status t0
    /\ snd (chunk_settled st t controller ci rc ChunkOk now) = Later 0%Q (t_id t) (ci + 1) 0.
Proof.
  intros Hfile Hfind Hci.
  assert (Hsize : 0 <= file_size (file_data f)) by (unfold file_size; lia).
  pose proof (chunk_start_inside _ _ Hsize Hci) as Hstart.
  pose proof (SplitterProps.ceil_div_covers (file_size (file_data f)) CHUNK_SIZE eq_refl)
    as Hcover.
  fold (totalChunks CHUNK_SIZE (file_data f)) in Hcover.
  assert (Hcs : CHUNK_SIZE = 10485760) by reflexivity.
  set (loaded := Z.min ((ci + 1) * CHUNK_SIZE) (file_size (file_data f))).
  assert (Hloaded : ci * CHUNK_SIZE < loaded <= file_size (file_data f)) by (subst loaded; lia).
  destruct (round_div_percent loaded (file_size (file_data f))) as [Hp Hp100]; [lia|].
  unfold chunk_settled. rewrite Hfile. cbn [fst snd].
  rewrite ClientProps.transfers_upd. cbn [transfers remove_call set_calls].
  rewrite ClientProps.find_transfer_upd, Hfind. simpl fmap.
  eexists. split; [reflexivity|]. cbn.
  split; [reflexivity|]. split; [reflexivity|]. fold loaded.
  split; [exact Hloaded|]. split; [exact Hp|]. split; [|split; reflexivity].
  intros Hlast. assert (loaded = file_size (file_data f)) by (subst loaded; nia). auto.
Qed.

(** The first, and only, chunk of the file of three bytes. *)
Lemma chunk_progress_witness :
  exists t',
    find_transfer
      (transfers (fst (chunk_settled uploading_state promoted_upload 0 0 0 ChunkOk 20)))
      (t_id promoted_upload)
    = Some t'
    /\ t_chunkIndex t' = Some (0 + 1)
    /\ t_loaded t' = Z.min ((0 + 1) * CHUNK_SIZE) (file_size (file_data small_file))
    /\ 0 * CHUNK_SIZE < t_loaded t' <= file_size (file_data small_file)
    /\ 0 <= t_progress t' <= 100
    /\ (0 + 1 = totalChunks CHUNK_SIZE (file_data small_file) ->
        t_loaded t' = file_size (file_data small_file) /\ t_progress t' = 100)
    /\ t_status t' = t_status promoted_upload
    /\ snd (chunk_settled uploading_state promoted_upload 0 0 0 ChunkOk 20)
       = Later 0%Q (t_id promoted_upload) (0 + 1) 0.
Proof.
  apply (chunk_progress uploading_state promoted_upload promoted_upload small_file 0%nat 0 0 20).
  - reflexivity.
  - vm_compute. reflexivity.
  - split; [lia | reflexivity].
Defined.

(** *** The delay between two attempts *)

(** X20.  The delay before a retry is never less than one second and never
    more than thirty; it does not shrink from one retry to the next, and
    from the tenth attempt on (retry count 9) it is thirty seconds. *)
Theorem retry_delay_bounds (rc rc' : Z) :
  0 <= rc <= rc' ->
  (1000 <= retry_delay rc)%Q /\ (retry_delay rc <= 30000)%Q
  /\ (retry_delay rc <= retry_delay rc')%Q
  /\ (9 <= rc -> retry_delay rc = 30000%Q).
Proof.
  intros H. unfold retry_delay.
  assert (Hbase : (1 <= 3 # 2)%Q) by discriminate.
  pose proof (Qpower_1_le (3 # 2) rc Hbase ltac:(lia)) as H1.
  pose proof (Qpower_le_compat_l (3 # 2) rc rc' ltac:(lia) Hbase) as Hm.
  split; [|split; [|split]].
  - apply Q.min_glb; [|discriminate].
    apply Qle_trans with (1000 * 1)%Q; [discriminate|].
    apply Qmult_le_l; [reflexivity | exact H1].
  - apply Q.le_min_r.
  - apply Q.min_le_compat_r. apply Qmult_le_l; [reflexivity | exact Hm].
  - intros H9.
    assert (Hbig : (30000 < 1000 * Qpower (3 # 2) rc)%Q).
    { apply Qlt_le_trans with (1000 * Qpower (3 # 2) 9)%Q; [reflexivity|].
      apply Qmult_le_l; [reflexivity|]. apply Qpower_le_compat_l; [lia | exact Hbase]. }
    unfold Qmin, GenericMinMax.gmin.
    apply Qgt_alt in Hbig. rewrite Hbig. reflexivity.
Qed.

Lemma retry_delay_bounds_witness :
  (1000 <= retry_delay 3)%Q /\ (retry_delay 3 <= 30000)%Q
  /\ (retry_delay 3 <= retry_delay 9)%Q
  /\ (9 <= 3 -> retry_delay 3 = 30000%Q).
Proof.
  apply (retry_delay_bounds 3 9). lia.
Defined.

(** *** Cancelling a download *)

Lemma filter_other_ids ts id :
  find_transfer ts id = None ->
  List.filter (fun t => negb (String.eqb (t_id t) id)) ts = ts.
Proof.
  unfold find_transfer. induction ts as [|t ts IH]; simpl; [reflexivity|].
  destruct (String.eqb (t_id t) id); [discriminate|]. simpl. intros H. now rewrite IH.
Qed.

(** X21.  A download keeps its controller in the transfer, so cancelling it
    does abort its request: after [downloadFile] and [cancelTransfer] the
    list of transfers is what it was before, the controller of the request
    is aborted, the one in flight for it is cut short, and no other
    controller is touched. *)
Theorem cancelled_download_is_aborted st u id name isFolder :
  user st = Some u ->
  find_transfer (transfers st) id = None ->
  transfers (cancelTransfer (downloadFile st id name isFolder) id) = transfers st
  /\ calls (downloadFile st id name isFolder)
     = calls st ++ [mkCall id (Some (controllers st))]
  /\ call_aborted (cancelTransfer (downloadFile st id name isFolder) id)
                  (mkCall id (Some (controllers st))) = true
  /\ aborted (cancelTransfer (downloadFile st id name isFolder) id)
     = {[ controllers st ]} ∪ aborted st.
Proof.
  intros Hu Hnone.
  assert (Hd : exists item,
             t_id item = id /\ t_abortController item = Some (controllers st)
             /\ downloadFile st id name isFolder
                = mkClient (user st) (currentFolderId st) (transfers st ++ [item])
                           (mergingRefs st) (transferStatusRef st)
                           (calls st ++ [mkCall id (Some (controllers st))])
                           (aborted st) (S (controllers st))).
  { unfold downloadFile, new_controller, set_calls, set_transfers.
    cbn [transfers calls user currentFolderId mergingRefs transferStatusRef aborted
         controllers].
    rewrite Hu. eexists. split; [|split; [|reflexivity]]; reflexivity. }
  destruct Hd as (item & Hid & Hctl & ->).
  unfold cancelTransfer. cbn [transfers].
  assert (Hfind : find_transfer (transfers st ++ [item]) id = Some item).
  { unfold find_transfer in *. rewrite RoutesProps.find_snoc, Hnone, Hid, String.eqb_refl.
    reflexivity. }
  rewrite Hfind, Hctl. cbn [abort transfers set_transfers aborted calls].
  rewrite List.filter_app, (filter_other_ids _ _ Hnone). cbn [List.filter].
  rewrite Hid, String.eqb_refl. cbn [negb]. rewrite app_nil_r.
  split; [reflexivity|]. split; [reflexivity|]. split; [|reflexivity].
  unfold call_aborted. cbn [call_signal aborted]. apply bool_decide_eq_true. set_solver.
Qed.

Lemma cancelled_download_is_aborted_witness :
  transfers (cancelTransfer (downloadFile promoted_state "d1" "a.bin" false) "d1")
  = transfers promoted_state
  /\ calls (downloadFile promoted_state "d1" "a.bin" false)
     = calls promoted_state ++ [mkCall "d1" (Some (controllers promoted_state))]
  /\ call_aborted (cancelTransfer (downloadFile promoted_state "d1" "a.bin" false) "d1")
                  (mkCall "d1" (Some (controllers promoted_state))) = true
  /\ aborted (cancelTransfer (downloadFile promoted_state "d1" "a.bin" false) "d1")
     = {[ controllers promoted_state ]} ∪ aborted promoted_state.
Proof.
  apply (cancelled_download_is_aborted promoted_state "u" "d1" "a.bin" false).
  - reflexivity.
  - vm_compute. reflexivity.
Defined.

End TransferProps.

(* ===================================================================== *)
(** ** Properties of the folder view *)
(* ===================================================================== *)

Module ClientViewProps.
Import Js ClientView ClientViewSpec.

Lemma find_node_in files c node :
  find_node files c = Some node -> In node files /\ n_id node = c.
Proof.
  unfold find_node. intros H. apply List.find_some in H as [Hin H].
  apply String.eqb_eq in H. auto.
Qed.

Lemma ancestor_add files a : forall b c,
  ancestor files (a + b) c
  = match ancestor files a c with
    | Some w => ancestor files b w
    | None => None
    end.
Proof.
  induction a as [|a IH]; intros b c; simpl; [reflexivity|].
  destruct (find_node files c) as [node|]; [|reflexivity].
  destruct (n_parentId node) as [p|]; [|reflexivity].
  destruct (String.eqb p ""); [reflexivity | apply IH].
Qed.

Lemma ancestor_next files k v c node p :
  ancestor files (S k) v = Some c ->
  find_node files c = Some node -> n_parentId node = Some p -> p <> "" ->
  ancestor files (S (S k)) v = Some p.
Proof.
  intros Hv Hnode Hp Hne. replace (S (S k)) with (S k + 1)%nat by lia.
  rewrite ancestor_add, Hv. simpl. rewrite Hnode, Hp.
  apply String.eqb_neq in Hne. now rewrite Hne.
Qed.

(** On a ring the walk goes round: the parent of a node of the ring is on
    the ring. *)
Lemma on_cycle_step files c :
  on_cycle files c ->
  exists node p, find_node files c = Some node /\ n_parentId node = Some p /\ p <> ""
                 /\ on_cycle files p.
Proof.
  intros [k Hk]. pose proof Hk as Hk'. simpl in Hk.
  destruct (find_node files c) as [node|] eqn:Hnode; [|discriminate].
  destruct (n_parentId node) as [p|] eqn:Hp; [|discriminate].
  destruct (String.eqb_spec p "") as [|Hne]; [discriminate|].
  exists node, p. repeat split; try assumption.
  exists k. replace (S k) with (k + 1)%nat by lia.
  rewrite ancestor_add, Hk. simpl. rewrite Hnode, Hp.
  apply String.eqb_neq in Hne. now rewrite Hne.
Qed.

Lemma ancestor_nonempty files : forall m v w,
  ancestor files (S m) v = Some w -> w <> "".
Proof.
  induction m as [|m IH]; intros v w H; simpl in H;
    destruct (find_node files v) as [node|]; try discriminate;
    destruct (n_parentId node) as [p|]; try discriminate;
    destruct (String.eqb_spec p "") as [|Hne]; try discriminate.
  - now injection H as <-.
  - exact (IH p w H).
Qed.

(** X22.  The breadcrumb loop has no guard against a ring of parent links:
    when the open folder is on such a ring, the loop never ends, whatever
    the number of rounds it is given. *)
Theorem breadcrumbs_never_end_on_a_ring files c :
  on_cycle files c ->
  forall fuel, breadcrumbs fuel files (Some c) = None.
Proof.
  intros Hc fuel. unfold breadcrumbs. generalize (@nil FileNode) as path.
  revert c Hc. induction fuel as [|fuel IH]; intros c Hc path; [reflexivity|].
  destruct (on_cycle_step files c Hc) as (node & p & Hnode & Hp & Hne & Hcp).
  assert (Hcne : c <> "") by (destruct Hc as [k Hk]; exact (ancestor_nonempty _ _ _ _ Hk)).
  simpl. apply String.eqb_neq in Hcne. rewrite Hcne. simpl.
  rewrite Hnode, Hp. apply IH. exact Hcp.
Qed.

(** Two folders that name each other, and a thousand rounds. *)
Lemma breadcrumbs_never_end_on_a_ring_witness :
  breadcrumbs 1000 two_in_a_ring (Some "a") = None.
Proof.
  apply (breadcrumbs_never_end_on_a_ring two_in_a_ring "a").
  exists 1%nat. reflexivity.
Defined.

(** The walk with the nodes passed so far: what it returns, when it
    returns. *)
Lemma breadcrumbs_from_chain files : forall fuel path cur result,
  linked path ->
  Forall (fun n => In n files) path ->
  match path with
  | a :: _ => n_parentId a = cur
  | [] => True
  end ->
  breadcrumbs_from fuel files path cur = Some result ->
  linked result
  /\ Forall (fun n => In n files) result
  /\ (exists front, result = front ++ path)
  /\ match result with
     | a :: _ => top files a
     | [] => truthy_str cur = false
             \/ exists c, cur = Some c /\ find_node files c = None
     end.
Proof.
  induction fuel as [|fuel IH]; intros path cur result Hl Hin Hhead H; [discriminate|].
  simpl in H.
  assert (Hstop : result = path ->
            (truthy_str cur = false
             \/ exists c, cur = Some c /\ find_node files c = None) ->
            linked result /\ Forall (fun n => In n files) result
            /\ (exists front, result = front ++ path)
            /\ match result with
               | a :: _ => top files a
               | [] => truthy_str cur = false
                       \/ exists c, cur = Some c /\ find_node files c = None
               end).
  { intros -> Hcur. split; [exact Hl|]. split; [exact Hin|]. split; [now exists []|].
    destruct path as [|a path]; [exact Hcur|]. unfold top. rewrite Hhead. exact Hcur. }
  destruct (truthy_str cur) eqn:Ht.
  - destruct cur as [c|]; [|discriminate]. simpl in H.
    destruct (find_node files c) as [node|] eqn:Hnode.
    + destruct (find_node_in _ _ _ Hnode) as [Hnin Hid].
      destruct (IH (node :: path) (n_parentId node) result) as (H1 & H2 & [front H3] & H4);
        [|constructor; assumption|reflexivity|exact H|].
      * simpl. destruct path as [|a path]; [exact I|]. split; [|exact Hl].
        rewrite Hhead, Hid. reflexivity.
      * split; [exact H1|]. split; [exact H2|]. split.
        -- exists (front ++ [node]). rewrite <- app_assoc. exact H3.
        -- destruct result as [|a result]; [|exact H4].
           destruct front; discriminate.
    + injection H as <-. apply Hstop; [reflexivity|]. right. eauto.
  - injection H as <-. apply Hstop; [reflexivity|]. now left.
Qed.

(** Without a ring the walk passes each node once at most, so it ends. *)
Lemma breadcrumbs_from_returns files :
  (forall c, ~ on_cycle files c) ->
  forall fuel visited path cur,
    List.NoDup visited -> incl visited (map n_id files) ->
    (forall v c, In v visited -> cur = Some c -> c <> "" ->
                 exists k, ancestor files (S k) v = Some c) ->
    (length files < fuel + length visited)%nat ->
    exists result, breadcrumbs_from fuel files path cur = Some result.
Proof.
  intros Hfree. induction fuel as [|fuel IH]; intros visited path cur Hnd Hincl Hreach Hlen.
  - exfalso. apply List.NoDup_incl_length in Hincl; [|exact Hnd].
    rewrite List.length_map in Hincl. lia.
  - simpl. destruct (truthy_str cur) eqn:Ht; [|eauto].
    destruct cur as [c|]; [|discriminate]. simpl in Ht. simpl.
    apply negb_true_iff, String.eqb_neq in Ht.
    destruct (find_node files c) as [node|] eqn:Hnode; [|eauto].
    destruct (find_node_in _ _ _ Hnode) as [Hnin Hid].
    apply (IH (c :: visited)).
    + constructor; [|exact Hnd]. intros Hin.
      destruct (Hreach c c Hin eq_refl Ht) as [k Hk]. apply (Hfree c). now exists k.
    + intros x [<-|Hx]; [rewrite <- Hid; now apply List.in_map | exact (Hincl x Hx)].
    + intros v p Hv Hp Hpne. destruct Hv as [<-|Hv].
      * exists 0%nat. simpl. rewrite Hnode, Hp.
        apply String.eqb_neq in Hpne. now rewrite Hpne.
      * destruct (Hreach v c Hv eq_refl Ht) as [k Hk].
        exists (S k). exact (ancestor_next files k v c node p Hk Hnode Hp Hpne).
    + simpl. lia.
Qed.

(** X23.  Without a ring of parent links the breadcrumbs are the chain of
    folders above the open one, outermost first: the loop ends within one
    round per node; each node of the path is the parent of the next one and
    a node of the list; the last one is the open folder, and the parent
    link of the first one is empty or names no node.  The path is empty
    exactly when no folder is open or the open one is not in the list. *)
Theorem breadcrumbs_are_the_parents files cur :
  (forall c, ~ on_cycle files c) ->
  exists path,
    breadcrumbs (S (length files)) files cur = Some path
    /\ linked path
    /\ Forall (fun n => In n files) path
    /\ match last path with
       | Some n => cur = Some (n_id n)
       | None => truthy_str cur = false
                 \/ exists c, cur = Some c /\ find_node files c = None
       end
    /\ match path with
       | a :: _ => top files a
       | [] => True
       end.
Proof.
  intros Hfree.
  destruct (breadcrumbs_from_returns files Hfree (S (length files)) [] [] cur)
    as [path Hpath]; [constructor | intros x [] | intros v c [] | simpl; lia |].
  exists path. split; [exact Hpath|].
  unfold breadcrumbs in Hpath. cbn [breadcrumbs_from] in Hpath.
  destruct (truthy_str cur) eqn:Ht.
  - destruct cur as [c|]; [|discriminate]. cbn [default from_option] in Hpath.
    unfold id in Hpath.
    destruct (find_node files c) as [node|] eqn:Hnode.
    + destruct (find_node_in _ _ _ Hnode) as [Hnin Hid].
      destruct (breadcrumbs_from_chain files (length files) [node] (n_parentId node) path)
        as (H1 & H2 & [front H3] & H4);
        [exact I | constructor; [exact Hnin | constructor] | reflexivity | exact Hpath |].
      split; [exact H1|]. split; [exact H2|]. split.
      * rewrite H3, last_snoc, Hid. reflexivity.
      * destruct path as [|a path]; [exact I | exact H4].
    + injection Hpath as <-. simpl.
      split; [exact I|]. split; [constructor|]. split; [right; eauto | exact I].
  - injection Hpath as <-. simpl.
    split; [exact I|]. split; [constructor|]. split; [now left | exact I].
Qed.

Lemma breadcrumbs_are_the_parents_witness :
  exists path,
    breadcrumbs (S (length two_levels)) two_levels (Some "d2") = Some path
    /\ linked path
    /\ Forall (fun n => In n two_levels) path
    /\ match last path with
       | Some n => Some "d2" = Some (n_id n)
       | None => truthy_str (Some "d2") = false
                 \/ exists c, Some "d2" = Some c /\ find_node two_levels c = None
       end
    /\ match path with
       | a :: _ => top two_levels a
       | [] => True
       end.
Proof.
  apply (breadcrumbs_are_the_parents two_levels (Some "d2")).
  intros c [k Hk]. revert Hk. cbn -[String.eqb].
  destruct (String.eqb_spec "d1" c) as [<-|H1]; [discriminate|].
  destruct (String.eqb_spec "d2" c) as [<-|H2]; [|discriminate].
  destruct k; discriminate.
Defined.

End ClientViewProps.
